(** * DynamoDBAdapter: a shallow embedding of the adapter and its properties

    The development follows [src/index.ts] (class [DynamoDBAdapter], the
    TypeScript revision whose [updateWithAttributes] takes
    [(originParams, item)]), and the older JavaScript revision of the same
    class for [projectionExpression], where the two revisions differ.  The
    stamping of [create], the key-exclusion loop and the compiler loop read
    the same in every revision.

    Layout:
    - [Js]: the fragment of JavaScript the adapter relies on (values and
      truthiness, objects with ordered own keys, [split], template literals
      of numbers);
    - the external collaborators (Boom errors, the DocumentClient, the clock
      and the uuid generator) and the promise monad threading the caller's
      heap and the list of requests that reached the network;
    - the adapter's functions;
    - the properties. *)

From Stdlib Require Import String Ascii List Bool Arith NArith ZArith Lia.
From Stdlib Require Import DecimalString DecimalNat.
Import ListNotations.

Local Open Scope list_scope.
Local Open Scope string_scope.

(* ================================================================= *)
(** ** The JavaScript fragment *)

Module Js.

(** Values stored in attribute maps ([DocumentClient.AttributeValue] is
    [any]).  Numbers are integers here; [NaN] and fractions do not occur in
    what follows. *)
#[warnings="-register-all"]
Inductive Value : Type :=
| JUndefined
| JNull
| JBool (b : bool)
| JNum (z : Z)
| JStr (s : string)
| JList (l : list Value)
| JMap (m : list (string * Value)).

(** [ToBoolean]: what [if (v)] and [a || b] test. *)
Definition truthy (v : Value) : bool :=
  match v with
  | JUndefined | JNull => false
  | JBool b => b
  | JNum z => negb (z =? 0)%Z
  | JStr s => negb (s =? "")
  | JList _ | JMap _ => true
  end.

(** [v !== ''] *)
Definition strict_neq_empty (v : Value) : bool :=
  match v with
  | JStr s => negb (s =? "")
  | _ => true
  end.

(** An object is its list of own properties in insertion order;
    property names are unique in any object the operations below build. *)
Definition Obj (V : Type) : Type := list (string * V).

Section Objects.
Context {V : Type}.

(** [o[k]], [None] standing for a missing property. *)
Fixpoint lookup (o : Obj V) (k : string) : option V :=
  match o with
  | [] => None
  | (k', v) :: r => if k' =? k then Some v else lookup r k
  end.

(** [o[k] = v]: an existing property keeps its place, a new one goes last. *)
Fixpoint assign (o : Obj V) (k : string) (v : V) : Obj V :=
  match o with
  | [] => [(k, v)]
  | (k', v') :: r =>
      if k' =? k then (k, v) :: r else (k', v') :: assign r k v
  end.

(** [delete o[k]] *)
Definition delete (o : Obj V) (k : string) : Obj V :=
  filter (fun p => negb (fst p =? k)) o.

Definition names (o : Obj V) : list string := map fst o.
End Objects.

(** [item[k]] on an attribute map: a missing property reads [undefined]. *)
Definition get (o : Obj Value) (k : string) : Value :=
  match lookup o k with
  | Some v => v
  | None => JUndefined
  end.

(** [`${i}`] for a non-negative integer. *)
Definition decimal (n : nat) : string :=
  NilEmpty.string_of_uint (Nat.to_uint n).

(** A property name that is an array index (a canonical numeric string
    below 2^32 - 1): such names come first in [Object.keys], in numeric
    order. *)
Definition array_index (s : string) : option N :=
  match NilEmpty.uint_of_string s with
  | Some d =>
      let n := N.of_uint d in
      if (NilEmpty.string_of_uint (N.to_uint n) =? s) && (n <? 4294967295)%N
      then Some n
      else None
  | None => None
  end.

Fixpoint insert_index (n : N) (k : string) (l : list (N * string))
  : list (N * string) :=
  match l with
  | [] => [(n, k)]
  | (m, k') :: r =>
      if (n <? m)%N then (n, k) :: l else (m, k') :: insert_index n k r
  end.

Fixpoint index_names (ks : list string) : list (N * string) :=
  match ks with
  | [] => []
  | k :: r =>
      match array_index k with
      | Some n => insert_index n k (index_names r)
      | None => index_names r
      end
  end.

Definition is_index (k : string) : bool :=
  match array_index k with Some _ => true | None => false end.

(** [Object.keys(o)]: array-index names ascending, then the other names in
    insertion order. *)
Definition Object_keys {V} (o : Obj V) : list string :=
  (map snd (index_names (names o))
   ++ filter (fun k => negb (is_index k)) (names o))%list.

(** [s.split(',')] *)
Fixpoint split_comma (s : string) : list string :=
  match s with
  | EmptyString => [""]
  | String c r =>
      if Ascii.eqb c ","%char then "" :: split_comma r
      else
        match split_comma r with
        | h :: t => String c h :: t
        | [] => [String c ""]
        end
  end.

End Js.
Import Js.

(* ================================================================= *)
(** ** External collaborators *)

(** The three Boom factories the adapter calls. *)
Inductive Boom : Type :=
| Boom_notFound (message : string)
| Boom_conflict (message : string)
| Boom_badImplementation (message : string).

(** [AWSError], as far as the adapter reads it. *)
Record AWSError : Type := mkAWSError {
  err_name : string;
  err_message : option string
}.

(** What a rejected call carries: the backend's error as it came, or a
    Boom error built by [handleError]. *)
Inductive Thrown : Type :=
| ThrownAWS (error : AWSError)
| ThrownBoom (error : Boom).

(** The domain error kinds. *)
Inductive ErrorKind : Type := NotFound | Conflict | Internal | CallerError.

(** The kind a rejection belongs to; a raw backend error has none. *)
Definition kind_of (t : Thrown) : option ErrorKind :=
  match t with
  | ThrownBoom (Boom_notFound _) => Some NotFound
  | ThrownBoom (Boom_conflict _) => Some Conflict
  | ThrownBoom (Boom_badImplementation _) => Some Internal
  | ThrownAWS _ => None
  end.

(** Caller-owned attribute maps live in a heap and are passed by reference. *)
Definition Ref : Type := nat.

(** [DocumentClient.GetItemInput].  An optional property is [None] when it
    is absent or holds [undefined]: nothing that reads a get or a put
    parameter tells the two apart. *)
Record GetItemInput : Type := mkGetItemInput {
  get_TableName : string;
  get_Key : Obj Value;
  get_ProjectionExpression : option string;
  get_ExpressionAttributeNames : option (Obj string);
  get_ConsistentRead : option bool;
  get_ReturnConsumedCapacity : option string
}.

Record GetItemOutput : Type := mkGetItemOutput {
  out_Item : option (Obj Value)
}.

(** [DocumentClient.PutItemInput]; [Item] is a reference to the caller's map. *)
Record PutItemInput : Type := mkPutItemInput {
  put_TableName : string;
  put_Item : Ref;
  put_ConditionExpression : option string;
  put_ExpressionAttributeNames : option (Obj string);
  put_ExpressionAttributeValues : option (Obj Value);
  put_ReturnConsumedCapacity : option string
}.

(** An optional property of an object: not there, there holding
    [undefined] (which [name?: T] admits), or there holding a value.
    Spreading an object over defaults tells the first two apart: an absent
    property leaves the default, one holding [undefined] replaces it. *)
Inductive Optional (A : Type) : Type :=
| Absent
| Undefined
| Holds (a : A).
Arguments Absent {A}.
Arguments Undefined {A}.
Arguments Holds {A} a.

(** What [if (p)] finds in an optional property that holds an object. *)
Definition to_option {A} (p : Optional A) : option A :=
  match p with
  | Holds a => Some a
  | Absent | Undefined => None
  end.

(** [DocumentClient.UpdateItemInput]: the three properties
    [updateWithAttributes] gives defaults to are kept with their three
    states. *)
Record UpdateItemInput : Type := mkUpdateItemInput {
  upd_TableName : string;
  upd_Key : Obj Value;
  upd_UpdateExpression : Optional string;
  upd_ExpressionAttributeNames : Optional (Obj string);
  upd_ExpressionAttributeValues : Optional (Obj Value);
  upd_ConditionExpression : option string;
  upd_ReturnConsumedCapacity : option string
}.

(** A request as it leaves for the store; a put carries the item as it is
    when the call is made. *)
Inductive Request : Type :=
| ReqGet (params : GetItemInput)
| ReqPut (params : PutItemInput) (Item : Obj Value)
| ReqUpdate (params : UpdateItemInput).

(** The store behind [this.doc]: its answer to a request may depend on the
    requests it has already received. *)
Record DocumentClient : Type := mkDocumentClient {
  doc_get : list Request -> GetItemInput -> AWSError + GetItemOutput;
  doc_put : list Request -> PutItemInput -> Obj Value -> AWSError + unit;
  doc_update : list Request -> UpdateItemInput -> AWSError + unit
}.

(** The process's clock and uuid generator: the value of the n-th
    [new Date().toISOString()] and of the n-th [uuidV1()]. *)
Record Runtime : Type := mkRuntime {
  clock : nat -> string;
  uuid : nat -> string
}.

Definition Schema : Type := option (Obj Value).

(** The adapter object. *)
Record DynamoDBAdapter : Type := mkDynamoDBAdapter {
  tableName : string;
  schema : Schema;
  doc : DocumentClient
}.

(** [DynamoDBAdapter.model] builds the adapter over its clients. *)
Definition model (client : DocumentClient) (tableName : string)
  (schema : Schema) : DynamoDBAdapter :=
  mkDynamoDBAdapter tableName schema client.

(* ================================================================= *)
(** ** Promises: state passing over the world, with rejection *)

Record World : Type := mkWorld {
  heap : Ref -> Obj Value;
  dates : nat;
  uuids : nat;
  network : list Request
}.

Inductive Settled (A : Type) : Type :=
| Resolved (a : A)
| Rejected (t : Thrown).
Arguments Resolved {A} a.
Arguments Rejected {A} t.

Definition Promise (A : Type) : Type := World -> Settled A * World.

Definition ret {A} (a : A) : Promise A := fun w => (Resolved a, w).

Definition throw {A} (t : Thrown) : Promise A := fun w => (Rejected t, w).

Definition bind {A B} (c : Promise A) (k : A -> Promise B) : Promise B :=
  fun w =>
    match c w with
    | (Resolved a, w') => k a w'
    | (Rejected t, w') => (Rejected t, w')
    end.

Definition try_catch {A} (body : Promise A) (handler : Thrown -> Promise A)
  : Promise A :=
  fun w =>
    match body w with
    | (Resolved a, w') => (Resolved a, w')
    | (Rejected t, w') => handler t w'
    end.

Notation "x <- c ;; k" := (bind c (fun x => k))
  (at level 61, c at next level, right associativity).
Notation "c ;;; k" := (bind c (fun _ => k))
  (at level 61, right associativity).

(** [l.forEach(f)] for an effectful callback. *)
Fixpoint forEach {A} (l : list A) (f : A -> Promise unit) : Promise unit :=
  match l with
  | [] => ret tt
  | a :: r => f a ;;; forEach r f
  end.

Definition write (h : Ref -> Obj Value) (r : Ref) (o : Obj Value)
  : Ref -> Obj Value :=
  fun r' => if Nat.eqb r' r then o else h r'.

Definition deref (r : Ref) : Promise (Obj Value) :=
  fun w => (Resolved (heap w r), w).

(** [r[k] = v] on the object behind [r]. *)
Definition heap_assign (r : Ref) (k : string) (v : Value) : Promise unit :=
  fun w =>
    (Resolved tt,
     mkWorld (write (heap w) r (assign (heap w r) k v))
             (dates w) (uuids w) (network w)).

(** [delete r[k]] on the object behind [r]. *)
Definition heap_delete (r : Ref) (k : string) : Promise unit :=
  fun w =>
    (Resolved tt,
     mkWorld (write (heap w) r (delete (heap w r) k))
             (dates w) (uuids w) (network w)).

Definition settle {A} (reply : AWSError + A) : Settled A :=
  match reply with
  | inl error => Rejected (ThrownAWS error)
  | inr a => Resolved a
  end.

Definition send (q : Request) (w : World) : World :=
  mkWorld (heap w) (dates w) (uuids w) (network w ++ [q])%list.

Section Runtime.
Variable rt : Runtime.

(** [new Date().toISOString()] *)
Definition new_Date_toISOString : Promise string :=
  fun w =>
    (Resolved (clock rt (dates w)),
     mkWorld (heap w) (S (dates w)) (uuids w) (network w)).

(** [uuidV1()] *)
Definition uuidV1 : Promise string :=
  fun w =>
    (Resolved (uuid rt (uuids w)),
     mkWorld (heap w) (dates w) (S (uuids w)) (network w)).
End Runtime.

(** [await client.get(params).promise()] and its siblings. *)
Definition await_get (client : DocumentClient) (params : GetItemInput)
  : Promise GetItemOutput :=
  fun w => (settle (doc_get client (network w) params),
            send (ReqGet params) w).

Definition await_put (client : DocumentClient) (params : PutItemInput)
  : Promise unit :=
  fun w =>
    let Item := heap w (put_Item params) in
    (settle (doc_put client (network w) params Item),
     send (ReqPut params Item) w).

Definition await_update (client : DocumentClient) (params : UpdateItemInput)
  : Promise unit :=
  fun w => (settle (doc_update client (network w) params),
            send (ReqUpdate params) w).

(* ================================================================= *)
(** ** The adapter *)

(** [handleError] *)
Definition handleError (error : AWSError) : Boom :=
  if err_name error =? "NotFound" then
    Boom_notFound "Requested resource not found."
  else if err_name error =? "ConditionalCheckFailedException" then
    Boom_conflict "Requested resource already exists."
  else
    Boom_badImplementation "Something went wrong with DB server.".

(** The request shapes [extendParams<T>] is used at. *)
Class Params (T : Type) : Type := {
  set_TableName : string -> T -> T;
  set_ReturnConsumedCapacity : string -> T -> T
}.

#[export] Instance Params_GetItemInput : Params GetItemInput := {
  set_TableName t p :=
    mkGetItemInput t (get_Key p) (get_ProjectionExpression p)
      (get_ExpressionAttributeNames p) (get_ConsistentRead p)
      (get_ReturnConsumedCapacity p);
  set_ReturnConsumedCapacity c p :=
    mkGetItemInput (get_TableName p) (get_Key p) (get_ProjectionExpression p)
      (get_ExpressionAttributeNames p) (get_ConsistentRead p) (Some c)
}.

#[export] Instance Params_PutItemInput : Params PutItemInput := {
  set_TableName t p :=
    mkPutItemInput t (put_Item p) (put_ConditionExpression p)
      (put_ExpressionAttributeNames p) (put_ExpressionAttributeValues p)
      (put_ReturnConsumedCapacity p);
  set_ReturnConsumedCapacity c p :=
    mkPutItemInput (put_TableName p) (put_Item p) (put_ConditionExpression p)
      (put_ExpressionAttributeNames p) (put_ExpressionAttributeValues p)
      (Some c)
}.

#[export] Instance Params_UpdateItemInput : Params UpdateItemInput := {
  set_TableName t p :=
    mkUpdateItemInput t (upd_Key p) (upd_UpdateExpression p)
      (upd_ExpressionAttributeNames p) (upd_ExpressionAttributeValues p)
      (upd_ConditionExpression p) (upd_ReturnConsumedCapacity p);
  set_ReturnConsumedCapacity c p :=
    mkUpdateItemInput (upd_TableName p) (upd_Key p) (upd_UpdateExpression p)
      (upd_ExpressionAttributeNames p) (upd_ExpressionAttributeValues p)
      (upd_ConditionExpression p) (Some c)
}.

(** [extendParams]: [{...params, TableName, ReturnConsumedCapacity: 'INDEXES'}] *)
Definition extendParams {T} `{Params T} (params : T) (tableName : string) : T :=
  set_ReturnConsumedCapacity "INDEXES" (set_TableName tableName params).

(** The object [projectionExpression] builds. *)
Record Projection : Type := mkProjection {
  ProjectionExpression : string;
  ExpressionAttributeNames : Obj string
}.

(** One round of [fieldsObj.forEach]; the state is [i] and the object. *)
Definition projection_field (st : nat * Projection) (field : string)
  : nat * Projection :=
  let (i, p) := st in
  (i + 1,
   mkProjection
     (ProjectionExpression p
      ++ (if (i =? 0)%nat then "#" ++ field else ", #" ++ field))
     (assign (ExpressionAttributeNames p) ("#" ++ field) field)).

Definition projection_forEach (fieldsObj : list string) : Projection :=
  snd (fold_left projection_field fieldsObj (0, mkProjection "" [])).

(** [Array.isArray] of a string and of an array. *)
Definition Array_isArray_string (fields : string) : bool := false.
Definition Array_isArray_array (fields : list string) : bool := true.

(** [projectionExpression] of [index.ts]: the array goes to [fieldsObj]
    and the test is made on [fields], the string; [None] is [undefined]. *)
Definition projectionExpression (fields : option string) : option Projection :=
  let fields := match fields with Some f => f | None => "" end in
  let fieldsObj := split_comma fields in
  if negb (Array_isArray_string fields) then None
  else Some (projection_forEach fieldsObj).

Module Legacy.
(** [projectionExpression] of the JavaScript revision: [fields] is
    reassigned to the array before the test. *)
Definition projectionExpression (fields : option string)
  : string + Projection :=
  let fields := match fields with Some f => f | None => "" end in
  let fields := split_comma fields in
  if negb (Array_isArray_array fields) then inl ""
  else inr (projection_forEach fields).
End Legacy.

(** [{...params, ...projection}]; spreading [undefined] adds nothing. *)
Definition spread_projection (params : GetItemInput) (pr : option Projection)
  : GetItemInput :=
  match pr with
  | Some r =>
      mkGetItemInput (get_TableName params) (get_Key params)
        (Some (ProjectionExpression r)) (Some (ExpressionAttributeNames r))
        (get_ConsistentRead params) (get_ReturnConsumedCapacity params)
  | None => params
  end.

(** The state of the loop of [updateWithAttributes]. *)
Record Compiler : Type := mkCompiler {
  i : nat;
  set : nat;
  remove : nat;
  UpdateExpressionSetAction : string;
  UpdateExpressionRemoveAction : string;
  names_ : option (Obj string);   (* params.ExpressionAttributeNames *)
  values_ : option (Obj Value)    (* params.ExpressionAttributeValues *)
}.

(** One round of [Object.keys(item).forEach(valueKey => ...)]. *)
Definition compile_field (item : Obj Value) (c : Compiler) (valueKey : string)
  : Compiler :=
  let i := i c + 1 in
  let names :=
    match names_ c with
    | Some n => Some (assign n ("#param" ++ decimal i) valueKey)
    | None => None
    end in
  match strict_neq_empty (get item valueKey), values_ c with
  | true, Some v =>
      let set := set c + 1 in
      mkCompiler i set (remove c)
        (UpdateExpressionSetAction c
         ++ (if (set =? 1)%nat
             then "SET #param" ++ decimal i ++ " = :val" ++ decimal i
             else ", #param" ++ decimal i ++ " = :val" ++ decimal i))
        (UpdateExpressionRemoveAction c)
        names
        (Some (assign v (":val" ++ decimal i) (get item valueKey)))
  | _, _ =>
      let remove := remove c + 1 in
      mkCompiler i (set c) remove
        (UpdateExpressionSetAction c)
        (UpdateExpressionRemoveAction c
         ++ (if (remove =? 1)%nat
             then "REMOVE #param" ++ decimal i
             else ", #param" ++ decimal i))
        names
        (values_ c)
  end.

(** The rounds over the fields [ks], from the state [c]. *)
Definition compile_from (item : Obj Value) (c : Compiler) (ks : list string)
  : Compiler :=
  fold_left (compile_field item) ks c.

(** The loop, from [i = 0, set = 0, remove = 0] and the two [' '] strings. *)
Definition compile (item : Obj Value) (params : UpdateItemInput) : Compiler :=
  compile_from item
    (mkCompiler 0 0 0 " " " "
       (to_option (upd_ExpressionAttributeNames params))
       (to_option (upd_ExpressionAttributeValues params)))
    (Object_keys item).

(** [{...{d: default}, ...originParams}] at one property: whatever the
    caller's object has there, [undefined] included, replaces the default. *)
Definition over_default {A} (default : A) (p : Optional A) : Optional A :=
  match p with
  | Absent => Holds default
  | Undefined => Undefined
  | Holds a => Holds a
  end.

(** [{UpdateExpression: '', ExpressionAttributeNames: {},
      ExpressionAttributeValues: {}, ...originParams}] *)
Definition spread_defaults (originParams : UpdateItemInput) : UpdateItemInput :=
  mkUpdateItemInput (upd_TableName originParams) (upd_Key originParams)
    (over_default "" (upd_UpdateExpression originParams))
    (over_default [] (upd_ExpressionAttributeNames originParams))
    (over_default [] (upd_ExpressionAttributeValues originParams))
    (upd_ConditionExpression originParams)
    (upd_ReturnConsumedCapacity originParams).

(** A property after the loop: the map the loop wrote to when there is
    one, and the property as it was when there is none. *)
Definition written {A} (p : Optional A) (o : option A) : Optional A :=
  match o with
  | Some a => Holds a
  | None => p
  end.

(** The parameters after the loop: the maps the loop filled,
    [delete params.ExpressionAttributeValues] when [set === 0], and
    [params.UpdateExpression += set action + remove action], where a
    property that is not a string reads ['undefined']. *)
Definition finish (params : UpdateItemInput) (c : Compiler) : UpdateItemInput :=
  mkUpdateItemInput (upd_TableName params) (upd_Key params)
    (Holds ((match upd_UpdateExpression params with
             | Holds e => e
             | Absent | Undefined => "undefined"
             end)
            ++ (UpdateExpressionSetAction c ++ UpdateExpressionRemoveAction c)))
    (written (upd_ExpressionAttributeNames params) (names_ c))
    (if (set c =? 0)%nat then Absent
     else written (upd_ExpressionAttributeValues params) (values_ c))
    (upd_ConditionExpression params)
    (upd_ReturnConsumedCapacity params).

Section Adapter.
Variable rt : Runtime.
Variable this : DynamoDBAdapter.

(** [this.schema && this.schema.f] *)
Definition schema_has (f : string) : bool :=
  match schema this with
  | Some s => truthy (get s f)
  | None => false
  end.

(** [findOne] *)
Definition findOne (key : Obj Value) (originParams : option GetItemInput)
  : Promise (Obj Value) :=
  let params := originParams in
  let params :=
    match params with
    | Some p =>
        match get_ProjectionExpression p with
        | Some e =>
            if negb (e =? "")
            then Some (spread_projection p (projectionExpression (Some e)))
            else Some p
        | None => Some p
        end
    | None => None
    end in
  let params :=
    extendParams
      (match params with
       | Some p =>
           mkGetItemInput (tableName this) key (get_ProjectionExpression p)
             (get_ExpressionAttributeNames p) (get_ConsistentRead p)
             (get_ReturnConsumedCapacity p)
       | None => mkGetItemInput (tableName this) key None None None None
       end)
      (tableName this) in
  found <- try_catch
             (data <- await_get (doc this) params ;;
              ret (out_Item data))
             (fun error => throw error) ;;
  match found with
  | Some Item => ret Item
  | None =>
      let error := handleError (mkAWSError "NotFound" None) in
      throw (ThrownBoom error)
  end.

(** [create] *)
Definition create (item : PutItemInput) (itemId : option string)
  : Promise (Obj Value) :=
  id <- match itemId with
        | Some s => if negb (s =? "") then ret s else uuidV1 rt
        | None => uuidV1 rt
        end ;;
  (if schema_has "id" then heap_assign (put_Item item) "id" (JStr id)
   else ret tt) ;;;
  (if schema_has "created" then
     now <- new_Date_toISOString rt ;;
     heap_assign (put_Item item) "created" (JStr now)
   else ret tt) ;;;
  (if schema_has "updated" then
     Item <- deref (put_Item item) ;;
     if truthy (get Item "created") then
       heap_assign (put_Item item) "updated" (get Item "created")
     else
       now <- new_Date_toISOString rt ;;
       heap_assign (put_Item item) "updated" (JStr now)
   else ret tt) ;;;
  let params := extendParams item (tableName this) in
  try_catch
    (await_put (doc this) params ;;;
     Item <- deref (put_Item item) ;;
     let respondData : Obj Value := [] in
     let respondData :=
       if schema_has "id" then assign respondData "id" (get Item "id")
       else respondData in
     let respondData :=
       if schema_has "updated"
       then assign respondData "updated" (get Item "updated")
       else respondData in
     let respondData :=
       if schema_has "created"
       then assign respondData "created" (get Item "created")
       else respondData in
     ret respondData)
    (fun error => throw error).

(** [updateWithAttributes] *)
Definition updateWithAttributes (originParams : UpdateItemInput) (item : Ref)
  : Promise (Obj Value) :=
  (if schema_has "updated" then
     now <- new_Date_toISOString rt ;;
     heap_assign item "updated" (JStr now)
   else ret tt) ;;;
  let keys := Object_keys (upd_Key originParams) in
  forEach keys (fun k =>
    it <- deref item ;;
    if truthy (get it k) then heap_delete item k else ret tt) ;;;
  let params := extendParams (spread_defaults originParams) (tableName this) in
  it <- deref item ;;
  let params := finish params (compile it params) in
  try_catch
    (await_update (doc this) params ;;;
     it <- deref item ;;
     let respondData : Obj Value := [] in
     let respondData :=
       if schema_has "updated"
       then assign respondData "updated" (get it "updated")
       else respondData in
     let respondData :=
       assign respondData "id" (get (upd_Key originParams) "id") in
     ret respondData)
    (fun error =>
       match error with
       | ThrownAWS e => throw (ThrownBoom (handleError e))
       | ThrownBoom _ => throw (ThrownBoom (handleError (mkAWSError "Error" None)))
       end).
End Adapter.

(* ================================================================= *)
(** ** What the loops compute, in the words of the design *)

(** [", "]-joined clauses over placeholder indices: the [SET] clause
    ["SET #param1 = :val1, #param3 = :val3"] and the [REMOVE] clause
    ["REMOVE #param2, #param4"]; no index, no clause. *)
Definition set_term (j : nat) : string :=
  "#param" ++ decimal j ++ " = :val" ++ decimal j.

Definition remove_term (j : nat) : string := "#param" ++ decimal j.

Definition clause (keyword : string) (term : nat -> string) (l : list nat)
  : string :=
  match l with
  | [] => ""
  | j :: r =>
      keyword ++ term j ++ fold_right (fun j s => ", " ++ term j ++ s) "" r
  end.

Definition set_clause : list nat -> string := clause "SET " set_term.
Definition remove_clause : list nat -> string := clause "REMOVE " remove_term.

(** The placeholder indices of the fields [ks] that are set, and of those
    that are removed, the first field of [ks] having index [i0 + 1]. *)
Fixpoint set_indices (item : Obj Value) (i0 : nat) (ks : list string)
  : list nat :=
  match ks with
  | [] => []
  | k :: r =>
      if strict_neq_empty (get item k)
      then (i0 + 1) :: set_indices item (i0 + 1) r
      else set_indices item (i0 + 1) r
  end.

Fixpoint remove_indices (item : Obj Value) (i0 : nat) (ks : list string)
  : list nat :=
  match ks with
  | [] => []
  | k :: r =>
      if strict_neq_empty (get item k)
      then remove_indices item (i0 + 1) r
      else (i0 + 1) :: remove_indices item (i0 + 1) r
  end.

(** The key-exclusion loop on the map itself. *)
Definition exclude_field (o : Obj Value) (k : string) : Obj Value :=
  if truthy (get o k) then delete o k else o.

Definition exclude (keys : list string) (o : Obj Value) : Obj Value :=
  fold_left exclude_field keys o.

(** The caller's expression the compiled clauses are appended to: empty
    by default, ['undefined'] when the caller's property holds
    [undefined]. *)
Definition base_expression (originParams : UpdateItemInput) : string :=
  match upd_UpdateExpression originParams with
  | Holds e => e
  | Undefined => "undefined"
  | Absent => ""
  end.

Definition base_names (originParams : UpdateItemInput) : Obj string :=
  match upd_ExpressionAttributeNames originParams with
  | Holds n => n
  | Absent | Undefined => []
  end.

Definition base_values (originParams : UpdateItemInput) : Obj Value :=
  match upd_ExpressionAttributeValues originParams with
  | Holds v => v
  | Absent | Undefined => []
  end.

(** Whether the loop finds a map to write names, or values, to: it does
    unless the caller's property holds [undefined]. *)
Definition names_usable (originParams : UpdateItemInput) : bool :=
  match upd_ExpressionAttributeNames originParams with
  | Undefined => false
  | Absent | Holds _ => true
  end.

Definition values_usable (originParams : UpdateItemInput) : bool :=
  match upd_ExpressionAttributeValues originParams with
  | Undefined => false
  | Absent | Holds _ => true
  end.

(** The indices the loop places in the SET and in the REMOVE clause:
    without a value map every field is removed. *)
Definition set_placed (originParams : UpdateItemInput) (item : Obj Value)
  (ks : list string) : list nat :=
  if values_usable originParams then set_indices item 0 ks else [].

Definition remove_placed (originParams : UpdateItemInput) (item : Obj Value)
  (ks : list string) : list nat :=
  if values_usable originParams then remove_indices item 0 ks
  else seq 1 (length ks).

(** The caller's map when the key-exclusion loop starts: [updated] has
    been stamped if the schema asks for it. *)
Definition stamp_updated (rt : Runtime) (this : DynamoDBAdapter)
  (item : Ref) (w : World) : Obj Value :=
  if schema_has this "updated"
  then assign (heap w item) "updated" (JStr (clock rt (dates w)))
  else heap w item.

(** The fields that survive key exclusion. *)
Definition surviving (rt : Runtime) (this : DynamoDBAdapter)
  (originParams : UpdateItemInput) (item : Ref) (w : World) : Obj Value :=
  exclude (Object_keys (upd_Key originParams)) (stamp_updated rt this item w).

(** The parameters [updateWithAttributes] hands to [doc.update]. *)
Definition update_request (rt : Runtime) (this : DynamoDBAdapter)
  (originParams : UpdateItemInput) (item : Ref) (w : World) : UpdateItemInput :=
  let params := extendParams (spread_defaults originParams) (tableName this) in
  finish params (compile (surviving rt this originParams item w) params).

(** [respondData] of [updateWithAttributes]. *)
Definition update_respondData (this : DynamoDBAdapter)
  (originParams : UpdateItemInput) (it : Obj Value) : Obj Value :=
  let respondData : Obj Value := [] in
  let respondData :=
    if schema_has this "updated"
    then assign respondData "updated" (get it "updated")
    else respondData in
  assign respondData "id" (get (upd_Key originParams) "id").

(** The parameters [findOne] hands to [doc.get]. *)
Definition get_request (this : DynamoDBAdapter) (key : Obj Value)
  (originParams : option GetItemInput) : GetItemInput :=
  let params :=
    match originParams with
    | Some p =>
        match get_ProjectionExpression p with
        | Some e =>
            if negb (e =? "")
            then Some (spread_projection p (projectionExpression (Some e)))
            else Some p
        | None => Some p
        end
    | None => None
    end in
  extendParams
    (match params with
     | Some p =>
         mkGetItemInput (tableName this) key (get_ProjectionExpression p)
           (get_ExpressionAttributeNames p) (get_ConsistentRead p)
           (get_ReturnConsumedCapacity p)
     | None => mkGetItemInput (tableName this) key None None None None
     end)
    (tableName this).

(** The identifier [create] uses: [itemId || uuidV1()]. *)
Definition create_id (rt : Runtime) (itemId : option string) (w : World)
  : string :=
  match itemId with
  | Some s => if negb (s =? "") then s else uuid rt (uuids w)
  | None => uuid rt (uuids w)
  end.

(** The caller's item after the [id] and [created] steps of [create]. *)
Definition stamp_created (rt : Runtime) (this : DynamoDBAdapter)
  (item : PutItemInput) (itemId : option string) (w : World) : Obj Value :=
  let A := heap w (put_Item item) in
  let A := if schema_has this "id"
           then assign A "id" (JStr (create_id rt itemId w)) else A in
  if schema_has this "created"
  then assign A "created" (JStr (clock rt (dates w))) else A.

(** The caller's item when [create] calls [doc.put]. *)
Definition created_item (rt : Runtime) (this : DynamoDBAdapter)
  (item : PutItemInput) (itemId : option string) (w : World) : Obj Value :=
  let A := stamp_created rt this item itemId w in
  if schema_has this "updated" then
    assign A "updated"
      (if truthy (get A "created") then get A "created"
       else JStr (clock rt (if schema_has this "created"
                            then S (dates w) else dates w)))
  else A.

(** [respondData] of [create]. *)
Definition create_respondData (this : DynamoDBAdapter) (Item : Obj Value)
  : Obj Value :=
  let respondData : Obj Value := [] in
  let respondData :=
    if schema_has this "id" then assign respondData "id" (get Item "id")
    else respondData in
  let respondData :=
    if schema_has this "updated"
    then assign respondData "updated" (get Item "updated")
    else respondData in
  if schema_has this "created"
  then assign respondData "created" (get Item "created")
  else respondData.

(** The field list of a projection, as the contract words it: one [#field]
    per field, joined by [", "]. *)
Definition projection_clause (fields : list string) : string :=
  match fields with
  | [] => ""
  | f :: r => "#" ++ f ++ fold_right (fun f s => ", #" ++ f ++ s) "" r
  end.

(** Sample collaborators for closed examples: a clock, a store that
    acknowledges every request and holds no item, and a store that rejects
    every request with a given error. *)
Definition sample_runtime : Runtime :=
  mkRuntime (fun n => "2020-01-01T00:00:0" ++ decimal n ++ ".000Z")
            (fun n => "6c84fb90-12c4-11e1-840d-7b25c5ee775" ++ decimal n).

Definition acknowledging : DocumentClient :=
  mkDocumentClient (fun _ _ => inr (mkGetItemOutput None))
                   (fun _ _ _ => inr tt)
                   (fun _ _ => inr tt).

Definition rejecting (error : AWSError) : DocumentClient :=
  mkDocumentClient (fun _ _ => inl error)
                   (fun _ _ _ => inl error)
                   (fun _ _ => inl error).

(** A world whose only caller-owned map is [item], nothing sent yet. *)
Definition world_with (item : Obj Value) : World :=
  mkWorld (fun _ => item) 0 0 [].

(** Update parameters that carry a key and nothing else. *)
Definition key_only (Key : Obj Value) : UpdateItemInput :=
  mkUpdateItemInput "" Key Absent Absent Absent None None.

(** Put parameters that carry the item and nothing else. *)
Definition item_only (Item : Ref) : PutItemInput :=
  mkPutItemInput "" Item None None None None.

(** Whether a character occurs in a string. *)
Fixpoint occurs (c : ascii) (s : string) : bool :=
  match s with
  | EmptyString => false
  | String c' r => Ascii.eqb c' c || occurs c r
  end.

(** Running a promise: how it settled, and the world it left. *)
Definition outcome {A} (p : Promise A) (w : World) : Settled A := fst (p w).
Definition after {A} (p : Promise A) (w : World) : World := snd (p w).

(* ================================================================= *)
(** ** The rest of the adapter *)

(** [{...o}]: the own properties of [o], in the order of [Object.keys]. *)
Definition own_entries {V} (o : Obj V) : Obj V :=
  flat_map (fun k => match lookup o k with
                     | Some v => [(k, v)]
                     | None => []
                     end)
           (Object_keys o).

(** [{...a, ...b}] *)
Definition spread {V} (a b : Obj V) : Obj V :=
  fold_left (fun o p => assign o (fst p) (snd p))
            (own_entries b) (own_entries a).

(** [throw DynamoDBAdapter.handleError(error)] in a [catch]. *)
Definition throw_handled {A} (error : Thrown) : Promise A :=
  match error with
  | ThrownAWS e => throw (ThrownBoom (handleError e))
  | ThrownBoom _ => throw (ThrownBoom (handleError (mkAWSError "Error" None)))
  end.

(** [await client.put(params).promise()] where [params.Item] is an object
    built for the call. *)
Definition await_put_item (client : DocumentClient) (params : PutItemInput)
  (Item : Obj Value) : Promise unit :=
  fun w => (settle (doc_put client (network w) params Item),
            send (ReqPut params Item) w).

(** How a call that can also throw a [TypeError] completes. *)
Inductive Completion (A : Type) : Type :=
| Returned (a : A)
| Threw (t : Thrown)
| ThrewTypeError.
Arguments Returned {A} a.
Arguments Threw {A} t.
Arguments ThrewTypeError {A}.

(** Values a property can be set on: in a class body (strict code) setting
    a property of [undefined], [null] or a primitive throws. *)
Definition is_object (v : Value) : bool :=
  match v with
  | JMap _ | JList _ => true
  | _ => false
  end.

(** [Item.Item.updated = now] on the attribute map [Item]: the write goes
    to the value of the attribute named [Item].  On an array the property
    lands beside the elements, which are all an attribute value holds. *)
Definition assign_nested_updated (Item : Obj Value) (now : string)
  : option (Obj Value) :=
  match get Item "Item" with
  | JMap m => Some (assign Item "Item" (JMap (assign m "updated" (JStr now))))
  | JList l => Some Item
  | _ => None
  end.

(** [update] of the first revision of [index.ts]: the stamp is written to
    [item.Item.Item.updated]. *)
Definition update (rt : Runtime) (this : DynamoDBAdapter) (item : PutItemInput)
  : World -> Completion (Obj Value) * World :=
  fun w =>
    let stamped : World + World :=
      if schema_has this "updated" then
        let now := clock rt (dates w) in
        match assign_nested_updated (heap w (put_Item item)) now with
        | Some Item =>
            inr (mkWorld (write (heap w) (put_Item item) Item)
                         (S (dates w)) (uuids w) (network w))
        | None => inl (mkWorld (heap w) (S (dates w)) (uuids w) (network w))
        end
      else inr w in
    match stamped with
    | inl w1 => (ThrewTypeError, w1)
    | inr w1 =>
        let params := extendParams item (tableName this) in
        match
          try_catch
            (await_put (doc this) params ;;;
             Item <- deref (put_Item item) ;;
             let respondData : Obj Value := [] in
             let respondData :=
               if schema_has this "updated"
               then assign respondData "updated" (get Item "updated")
               else respondData in
             ret respondData)
            throw_handled w1
        with
        | (Resolved a, w2) => (Returned a, w2)
        | (Rejected t, w2) => (Threw t, w2)
        end
    end.

(** The second revision of [index.ts]: the key comes first, and the
    caller's parameters last. *)
Module Revision2.
Section KeyFirst.
Variable rt : Runtime.
Variable this : DynamoDBAdapter.

(** [create(item, itemId, options)] *)
Definition create (item : Ref) (itemId : option string)
  (options : option PutItemInput) : Promise (Obj Value) :=
  id <- match itemId with
        | Some s => if negb (s =? "") then ret s else uuidV1 rt
        | None => uuidV1 rt
        end ;;
  (if schema_has this "id" then
     id' <- (if negb (id =? "") then ret id else uuidV1 rt) ;;
     heap_assign item "id" (JStr id')
   else ret tt) ;;;
  (if schema_has this "created" then
     now <- new_Date_toISOString rt ;;
     heap_assign item "created" (JStr now)
   else ret tt) ;;;
  (if schema_has this "updated" then
     it <- deref item ;;
     if truthy (get it "created") then
       heap_assign item "updated" (get it "created")
     else
       now <- new_Date_toISOString rt ;;
       heap_assign item "updated" (JStr now)
   else ret tt) ;;;
  let params :=
    extendParams
      (match options with
       | Some o =>
           mkPutItemInput (tableName this) item (put_ConditionExpression o)
             (put_ExpressionAttributeNames o) (put_ExpressionAttributeValues o)
             (put_ReturnConsumedCapacity o)
       | None => mkPutItemInput (tableName this) item None None None None
       end)
      (tableName this) in
  try_catch
    (await_put (doc this) params ;;;
     it <- deref item ;;
     let respondData : Obj Value := [] in
     let respondData :=
       if schema_has this "id" then assign respondData "id" (get it "id")
       else respondData in
     let respondData :=
       if schema_has this "updated"
       then assign respondData "updated" (get it "updated")
       else respondData in
     let respondData :=
       if schema_has this "created"
       then assign respondData "created" (get it "created")
       else respondData in
     ret respondData)
    (fun error => throw error).

(** [update(key, originParams)]: the record written is
    [{...originParams.Item, ...key}]. *)
Definition update (key : Obj Value) (originParams : PutItemInput)
  : Promise (Obj Value) :=
  (if schema_has this "updated" then
     now <- new_Date_toISOString rt ;;
     heap_assign (put_Item originParams) "updated" (JStr now)
   else ret tt) ;;;
  Item <- deref (put_Item originParams) ;;
  let params := extendParams originParams (tableName this) in
  try_catch
    (await_put_item (doc this) params (spread Item key) ;;;
     it <- deref (put_Item originParams) ;;
     let respondData : Obj Value := [] in
     let respondData :=
       if schema_has this "updated"
       then assign respondData "updated" (get it "updated")
       else respondData in
     ret respondData)
    throw_handled.

(** [updateWithAttributes(key, item, originParams)]: the expression and
    the two maps start empty whatever [originParams] holds. *)
Definition updateWithAttributes (key : Obj Value) (item : Ref)
  (originParams : UpdateItemInput) : Promise (Obj Value) :=
  (if schema_has this "updated" then
     now <- new_Date_toISOString rt ;;
     heap_assign item "updated" (JStr now)
   else ret tt) ;;;
  let keys := Object_keys key in
  forEach keys (fun k =>
    it <- deref item ;;
    if truthy (get it k) then heap_delete item k else ret tt) ;;;
  let params :=
    extendParams
      (mkUpdateItemInput (upd_TableName originParams) key
         (Holds "") (Holds []) (Holds [])
         (upd_ConditionExpression originParams)
         (upd_ReturnConsumedCapacity originParams))
      (tableName this) in
  it <- deref item ;;
  let params := finish params (compile it params) in
  try_catch
    (await_update (doc this) params ;;;
     it <- deref item ;;
     let respondData : Obj Value := [] in
     let respondData :=
       if schema_has this "updated"
       then assign respondData "updated" (get it "updated")
       else respondData in
     let respondData := assign respondData "id" (get key "id") in
     ret respondData)
    throw_handled.
End KeyFirst.
End Revision2.

(** The fields [ks] with their placeholder indices, the first being
    [i0 + 1]; the name map and the value map they stand for. *)
Definition numbered (i0 : nat) (ks : list string) : list (nat * string) :=
  combine (seq (i0 + 1) (length ks)) ks.

Definition names_of (i0 : nat) (ks : list string) : Obj string :=
  map (fun p => ("#param" ++ decimal (fst p), snd p)) (numbered i0 ks).

Definition values_of (item : Obj Value) (i0 : nat) (ks : list string)
  : Obj Value :=
  map (fun p => (":val" ++ decimal (fst p), get item (snd p)))
      (filter (fun p => strict_neq_empty (get item (snd p))) (numbered i0 ks)).

(** Whether the key-exclusion loop over [keys] keeps the property [p] of
    the map [o]. *)
Definition kept (keys : list string) (o : Obj Value) (p : string * Value)
  : bool :=
  negb (existsb (String.eqb (fst p)) keys && truthy (get o (fst p))).

(** The item [Revision2.update] leaves behind the caller's reference. *)
Definition replaced_item (rt : Runtime) (this : DynamoDBAdapter)
  (originParams : PutItemInput) (w : World) : Obj Value :=
  if schema_has this "updated"
  then assign (heap w (put_Item originParams)) "updated"
         (JStr (clock rt (dates w)))
  else heap w (put_Item originParams).

(** The caller's update parameters as the second revision reads them:
    the key it was given, and no expression or map of the caller's. *)
Definition key_first (key : Obj Value) (originParams : UpdateItemInput)
  : UpdateItemInput :=
  mkUpdateItemInput (upd_TableName originParams) key Absent Absent Absent
    (upd_ConditionExpression originParams)
    (upd_ReturnConsumedCapacity originParams).

(* ================================================================= *)
(** ** Strings and objects *)

Example Object_keys_order :
  Object_keys [("b", 1); ("10", 2); ("a", 3); ("2", 4); ("01", 5)]
  = ["2"; "10"; "b"; "a"; "01"].
Proof. reflexivity. Qed.

Example split_comma_abc : split_comma "a,b,c" = ["a"; "b"; "c"].
Proof. reflexivity. Qed.

Example split_comma_empty : split_comma "" = [""].
Proof. reflexivity. Qed.

Example truthy_falsy_values :
  map truthy [JStr ""; JNum 0; JBool false; JNull; JUndefined; JStr "0"]
  = [false; false; false; false; false; true].
Proof. reflexivity. Qed.

Example handleError_kinds :
  map (fun n => kind_of (ThrownBoom (handleError (mkAWSError n None))))
    ["NotFound"; "ConditionalCheckFailedException"; "ThrottlingException"]
  = [Some NotFound; Some Conflict; Some Internal].
Proof. reflexivity. Qed.

Lemma append_assoc (a b c : string) : (a ++ b) ++ c = a ++ (b ++ c).
Proof. induction a as [|x a IH]; simpl; [reflexivity | now rewrite IH]. Qed.

Lemma append_nil_r (a : string) : a ++ "" = a.
Proof. induction a as [|x a IH]; simpl; [reflexivity | now rewrite IH]. Qed.

Lemma append_inj_l (a b c : string) : a ++ b = a ++ c -> b = c.
Proof.
  induction a as [|x a IH]; simpl; intros H; [assumption|].
  inversion H. auto.
Qed.

Lemma occurs_append (c : ascii) (a b : string) :
  occurs c (a ++ b) = occurs c a || occurs c b.
Proof.
  induction a as [|x a IH]; simpl; [reflexivity|].
  now rewrite IH, orb_assoc.
Qed.

Lemma decimal_inj (n m : nat) : decimal n = decimal m -> n = m.
Proof.
  unfold decimal. intros H.
  apply (f_equal NilEmpty.uint_of_string) in H.
  rewrite !NilEmpty.usu in H.
  injection H as H.
  apply (f_equal Nat.of_uint) in H.
  now rewrite !DecimalNat.Unsigned.of_to in H.
Qed.

Lemma param_inj (n m : nat) :
  "#param" ++ decimal n = "#param" ++ decimal m -> n = m.
Proof. intros H. apply append_inj_l in H. now apply decimal_inj. Qed.

Lemma val_inj (n m : nat) :
  ":val" ++ decimal n = ":val" ++ decimal m -> n = m.
Proof. intros H. apply append_inj_l in H. now apply decimal_inj. Qed.

Lemma occurs_S_uint (d : Decimal.uint) :
  occurs "S" (NilEmpty.string_of_uint d) = false.
Proof. induction d; simpl; auto. Qed.

Lemma occurs_S_decimal (n : nat) : occurs "S" (decimal n) = false.
Proof. apply occurs_S_uint. Qed.

Section ObjectFacts.
Context {V : Type}.
Implicit Types (o : Obj V) (k f : string) (v : V).

Lemma lookup_assign_same o k v : lookup (assign o k v) k = Some v.
Proof.
  induction o as [|[k' v'] r IH]; simpl.
  - now rewrite String.eqb_refl.
  - destruct (k' =? k) eqn:E; simpl.
    + now rewrite String.eqb_refl.
    + now rewrite E.
Qed.

Lemma lookup_assign_other o k f v :
  k <> f -> lookup (assign o k v) f = lookup o f.
Proof.
  intros N. apply String.eqb_neq in N.
  induction o as [|[k' v'] r IH]; simpl.
  - now rewrite N.
  - destruct (k' =? k) eqn:E; simpl.
    + apply String.eqb_eq in E. subst k'. now rewrite N.
    + now rewrite IH.
Qed.

Lemma lookup_delete_same o k : lookup (delete o k) k = None.
Proof.
  induction o as [|[k' v'] r IH]; simpl; [reflexivity|].
  destruct (k' =? k) eqn:E; simpl; [assumption|].
  now rewrite E.
Qed.

Lemma lookup_delete_other o k f :
  k <> f -> lookup (delete o k) f = lookup o f.
Proof.
  intros N. apply String.eqb_neq in N.
  induction o as [|[k' v'] r IH]; simpl; [reflexivity|].
  destruct (k' =? k) eqn:E; simpl.
  - apply String.eqb_eq in E. subst k'. now rewrite N.
  - now rewrite IH.
Qed.

Lemma lookup_None_names o k : lookup o k = None <-> ~ In k (names o).
Proof.
  induction o as [|[k' v'] r IH]; simpl.
  - tauto.
  - destruct (k' =? k) eqn:E.
    + apply String.eqb_eq in E. split; [discriminate | tauto].
    + apply String.eqb_neq in E. tauto.
Qed.

Lemma In_names_delete o k f :
  In f (names (delete o k)) <-> In f (names o) /\ f <> k.
Proof.
  unfold names, delete.
  induction o as [|[k' v'] r IH]; simpl; [tauto|].
  destruct (k' =? k) eqn:E; simpl.
  - apply String.eqb_eq in E. subst k'. rewrite IH. intuition congruence.
  - apply String.eqb_neq in E. rewrite IH. intuition congruence.
Qed.

End ObjectFacts.

Lemma In_insert_index n k l p :
  In p (insert_index n k l) <-> p = (n, k) \/ In p l.
Proof.
  induction l as [|[m k'] r IH]; simpl.
  - intuition congruence.
  - destruct (n <? m)%N; simpl.
    + intuition congruence.
    + rewrite IH. intuition congruence.
Qed.

Lemma In_index_names ks n k :
  In (n, k) (index_names ks) <-> In k ks /\ array_index k = Some n.
Proof.
  induction ks as [|k' r IH]; simpl; [tauto|].
  destruct (array_index k') as [m|] eqn:E.
  - rewrite In_insert_index, IH. split.
    + intros [H|[H1 H2]]; [injection H as -> ->|]; tauto.
    + intros [[->|H1] H2]; [left; congruence | tauto].
  - rewrite IH. split; [tauto|].
    intros [[->|H1] H2]; [congruence | tauto].
Qed.

(** [Object.keys] lists exactly the property names. *)
Lemma In_Object_keys {V} (o : Obj V) (k : string) :
  In k (Object_keys o) <-> In k (names o).
Proof.
  unfold Object_keys. rewrite in_app_iff, in_map_iff, filter_In.
  unfold is_index. split.
  - intros [[[n k'] [E H]]|[H _]]; [|assumption].
    simpl in E. subst k'. now apply In_index_names in H.
  - intros H. destruct (array_index k) as [n|] eqn:E.
    + left. exists (n, k). split; [reflexivity|]. now apply In_index_names.
    + right. now split.
Qed.

(* ================================================================= *)
(** ** The key-exclusion loop *)

Lemma get_delete (o : Obj Value) (k f : string) :
  get (delete o k) f = if f =? k then JUndefined else get o f.
Proof.
  unfold get. destruct (f =? k) eqn:E.
  - apply String.eqb_eq in E. subst f. now rewrite lookup_delete_same.
  - apply String.eqb_neq in E. rewrite lookup_delete_other; auto.
Qed.

Lemma get_assign (o : Obj Value) (k f : string) (v : Value) :
  get (assign o k v) f = if f =? k then v else get o f.
Proof.
  unfold get. destruct (f =? k) eqn:E.
  - apply String.eqb_eq in E. subst f. now rewrite lookup_assign_same.
  - apply String.eqb_neq in E. rewrite lookup_assign_other; auto.
Qed.

Lemma get_exclude_field (o : Obj Value) (k f : string) :
  get (exclude_field o k) f
  = if (f =? k) && truthy (get o f) then JUndefined else get o f.
Proof.
  unfold exclude_field. destruct (f =? k) eqn:E; simpl.
  - apply String.eqb_eq in E. subst f.
    destruct (truthy (get o k)); [|reflexivity].
    now rewrite get_delete, String.eqb_refl.
  - destruct (truthy (get o k)); [|reflexivity].
    now rewrite get_delete, E.
Qed.

Lemma In_names_exclude_field (o : Obj Value) (k f : string) :
  In f (names (exclude_field o k))
  <-> In f (names o) /\ ~ (f = k /\ truthy (get o f) = true).
Proof.
  unfold exclude_field. destruct (truthy (get o k)) eqn:T.
  - rewrite In_names_delete. split.
    + intros [H N]. tauto.
    + intros [H N]. split; [assumption|]. intros ->. tauto.
  - split; [|tauto]. intros H. split; [assumption|].
    intros [-> T']. congruence.
Qed.

(** A field survives the exclusion loop unless it is named by the key and
    its value is truthy. *)
Lemma In_names_exclude (keys : list string) (o : Obj Value) (f : string) :
  In f (names (exclude keys o))
  <-> In f (names o) /\ ~ (In f keys /\ truthy (get o f) = true).
Proof.
  unfold exclude. revert o.
  induction keys as [|k r IH]; intros o; simpl; [tauto|].
  rewrite IH, In_names_exclude_field, get_exclude_field.
  destruct (f =? k) eqn:E; simpl.
  - apply String.eqb_eq in E. subst f.
    destruct (truthy (get o k)) eqn:T; simpl; intuition congruence.
  - apply String.eqb_neq in E. intuition congruence.
Qed.

Lemma get_exclude (keys : list string) (o : Obj Value) (f : string) :
  get (exclude keys o) f
  = if existsb (String.eqb f) keys && truthy (get o f)
    then JUndefined else get o f.
Proof.
  unfold exclude. revert o.
  induction keys as [|k r IH]; intros o; simpl; [reflexivity|].
  rewrite IH, get_exclude_field.
  destruct (f =? k) eqn:E; simpl.
  - destruct (truthy (get o f)) eqn:T; simpl.
    + now destruct (existsb (String.eqb f) r).
    + rewrite T. now rewrite andb_false_r.
  - reflexivity.
Qed.

(* ================================================================= *)
(** ** The compiler loop *)

Lemma clause_snoc (keyword : string) (term : nat -> string)
  (l : list nat) (j : nat) :
  clause keyword term (l ++ [j])
  = clause keyword term l
    ++ (if (length l =? 0)%nat then keyword ++ term j else ", " ++ term j).
Proof.
  destruct l as [|a r]; simpl.
  - now rewrite append_nil_r.
  - rewrite !append_assoc. do 2 f_equal.
    induction r as [|b r IH]; simpl.
    + now rewrite append_nil_r.
    + rewrite IH. now rewrite !append_assoc.
Qed.

Section Loop.
Variable item : Obj Value.

(** One round, read off field by field. *)
Lemma compile_field_step (c : Compiler) (k : string) (v0 : Obj Value) :
  values_ c = Some v0 ->
  let c1 := compile_field item c k in
  let j := i c + 1 in
  i c1 = j
  /\ names_ c1
     = match names_ c with
       | Some n => Some (assign n ("#param" ++ decimal j) k)
       | None => None
       end
  /\ if strict_neq_empty (get item k)
     then set c1 = set c + 1
          /\ UpdateExpressionSetAction c1
             = UpdateExpressionSetAction c
               ++ (if (set c =? 0)%nat then "SET " ++ set_term j
                   else ", " ++ set_term j)
          /\ remove c1 = remove c
          /\ UpdateExpressionRemoveAction c1 = UpdateExpressionRemoveAction c
          /\ values_ c1
             = Some (assign v0 (":val" ++ decimal j) (get item k))
     else set c1 = set c
          /\ UpdateExpressionSetAction c1 = UpdateExpressionSetAction c
          /\ remove c1 = remove c + 1
          /\ UpdateExpressionRemoveAction c1
             = UpdateExpressionRemoveAction c
               ++ (if (remove c =? 0)%nat then "REMOVE " ++ remove_term j
                   else ", " ++ remove_term j)
          /\ values_ c1 = Some v0.
Proof.
  intros Hv. unfold compile_field. rewrite Hv.
  destruct (strict_neq_empty (get item k)); simpl.
  - repeat split. rewrite Nat.add_1_r. now destruct (set c).
  - repeat split. rewrite Nat.add_1_r. now destruct (remove c).
Qed.

(** The counter and the name map of one round do not depend on the value
    map. *)
Lemma compile_field_names (c : Compiler) (k : string) :
  i (compile_field item c k) = i c + 1
  /\ names_ (compile_field item c k)
     = match names_ c with
       | Some n => Some (assign n ("#param" ++ decimal (i c + 1)) k)
       | None => None
       end.
Proof.
  unfold compile_field.
  destruct (strict_neq_empty (get item k)), (values_ c); split; reflexivity.
Qed.

(** One round without a value map: the field is removed. *)
Lemma compile_field_no_values (c : Compiler) (k : string) :
  values_ c = None ->
  let c1 := compile_field item c k in
  let j := i c + 1 in
  i c1 = j
  /\ set c1 = set c
  /\ UpdateExpressionSetAction c1 = UpdateExpressionSetAction c
  /\ remove c1 = remove c + 1
  /\ UpdateExpressionRemoveAction c1
     = UpdateExpressionRemoveAction c
       ++ (if (remove c =? 0)%nat then "REMOVE " ++ remove_term j
           else ", " ++ remove_term j)
  /\ values_ c1 = None.
Proof.
  intros Hv. unfold compile_field. rewrite Hv.
  destruct (strict_neq_empty (get item k)); simpl;
    repeat split; rewrite Nat.add_1_r; now destruct (remove c).
Qed.

(** Without a value map the rounds over [ks] leave the SET clause alone
    and remove every field. *)
Lemma compile_from_no_values (ks : list string) :
  forall (c : Compiler) (R0 : list nat),
    values_ c = None ->
    remove c = length R0 ->
    UpdateExpressionRemoveAction c = " " ++ remove_clause R0 ->
    let c' := compile_from item c ks in
    let R1 := (R0 ++ seq (i c + 1) (length ks))%list in
    set c' = set c
    /\ UpdateExpressionSetAction c' = UpdateExpressionSetAction c
    /\ remove c' = length R1
    /\ UpdateExpressionRemoveAction c' = " " ++ remove_clause R1
    /\ values_ c' = None.
Proof.
  induction ks as [|k r IH]; intros c R0 Hv Hr Hra; simpl.
  - rewrite !app_nil_r. auto.
  - destruct (compile_field_no_values c k Hv)
      as (Hi & Hs1 & Hsa1 & Hr1 & Hra1 & Hv1).
    unfold compile_from in *. cbn [fold_left].
    set (c1 := compile_field item c k) in *.
    specialize (IH c1 (R0 ++ [i c + 1])%list Hv1).
    rewrite Hi in IH. rewrite <- !app_assoc in IH. simpl in IH.
    replace (S (i c + 1)) with (i c + 1 + 1) by lia.
    rewrite <- Hs1, <- Hsa1. apply IH.
    + rewrite Hr1, Hr, length_app. reflexivity.
    + rewrite Hra1, Hra. unfold remove_clause at 2.
      rewrite clause_snoc, append_assoc, Hr. reflexivity.
Qed.

(** The counters and the two clause strings after the rounds over [ks]. *)
Lemma compile_from_clauses (ks : list string) :
  forall (c : Compiler) (v0 : Obj Value) (S0 R0 : list nat),
    values_ c = Some v0 ->
    set c = length S0 ->
    UpdateExpressionSetAction c = " " ++ set_clause S0 ->
    remove c = length R0 ->
    UpdateExpressionRemoveAction c = " " ++ remove_clause R0 ->
    let c' := compile_from item c ks in
    let S1 := (S0 ++ set_indices item (i c) ks)%list in
    let R1 := (R0 ++ remove_indices item (i c) ks)%list in
    i c' = i c + length ks
    /\ set c' = length S1
    /\ UpdateExpressionSetAction c' = " " ++ set_clause S1
    /\ remove c' = length R1
    /\ UpdateExpressionRemoveAction c' = " " ++ remove_clause R1.
Proof.
  induction ks as [|k r IH]; intros c v0 S0 R0 Hv Hs Hsa Hr Hra; simpl.
  - rewrite !app_nil_r, Nat.add_0_r. auto.
  - destruct (compile_field_step c k v0 Hv) as (Hi & _ & Hstep).
    unfold compile_from in *. cbn [fold_left].
    set (c1 := compile_field item c k) in *.
    destruct (strict_neq_empty (get item k)).
    + destruct Hstep as (Hs1 & Hsa1 & Hr1 & Hra1 & Hv1).
      specialize (IH c1 _ (S0 ++ [i c + 1])%list R0 Hv1).
      rewrite Hi in IH. rewrite <- !app_assoc in IH. simpl in IH.
      replace (i c + S (length r)) with (i c + 1 + length r) by lia.
      apply IH.
      * rewrite Hs1, Hs, length_app. reflexivity.
      * rewrite Hsa1, Hsa. unfold set_clause at 2.
        rewrite clause_snoc, append_assoc, Hs. reflexivity.
      * now rewrite Hr1.
      * rewrite Hra1. exact Hra.
    + destruct Hstep as (Hs1 & Hsa1 & Hr1 & Hra1 & Hv1).
      specialize (IH c1 _ S0 (R0 ++ [i c + 1])%list Hv1).
      rewrite Hi in IH. rewrite <- !app_assoc in IH. simpl in IH.
      replace (i c + S (length r)) with (i c + 1 + length r) by lia.
      apply IH.
      * now rewrite Hs1.
      * rewrite Hsa1. exact Hsa.
      * rewrite Hr1, Hr, length_app. reflexivity.
      * rewrite Hra1, Hra. unfold remove_clause at 2.
        rewrite clause_snoc, append_assoc, Hr. reflexivity.
Qed.

(** The name map after the rounds over [ks]: the field at position [j]
    is registered under [#param(i + j + 1)], earlier placeholders are
    left alone, and nothing but the fields of [ks] is added. *)
Lemma compile_from_names (ks : list string) :
  forall (c : Compiler) (n0 : Obj string),
    names_ c = Some n0 ->
    exists n',
      names_ (compile_from item c ks) = Some n'
      /\ (forall j k, nth_error ks j = Some k ->
            lookup n' ("#param" ++ decimal (i c + j + 1)) = Some k)
      /\ (forall m, m <= i c ->
            lookup n' ("#param" ++ decimal m)
            = lookup n0 ("#param" ++ decimal m))
      /\ (forall p f, lookup n' p = Some f ->
            lookup n0 p = Some f \/ In f ks).
Proof.
  induction ks as [|k r IH]; intros c n0 Hn.
  - exists n0. simpl. repeat split; auto.
    intros j k H. now destruct j.
  - destruct (compile_field_names c k) as (Hi & Hn1).
    unfold compile_from in *. cbn [fold_left].
    set (c1 := compile_field item c k) in *.
    rewrite Hn in Hn1.
    destruct (IH c1 _ Hn1) as (n' & E & P1 & P2 & P3).
    exists n'. split; [assumption|]. rewrite Hi in P1, P2.
    repeat split.
    + intros [|j] f H; simpl in H.
      * injection H as <-. rewrite Nat.add_0_r.
        rewrite P2 by lia. apply lookup_assign_same.
      * replace (i c + S j + 1) with (i c + 1 + j + 1) by lia.
        now apply P1.
    + intros m Hm. rewrite P2 by lia.
      apply lookup_assign_other. intros H. apply param_inj in H. lia.
    + intros p f H. apply P3 in H. destruct H as [H|H]; [|right; now right].
      destruct (String.eqb_spec ("#param" ++ decimal (i c + 1)) p) as [<-|N].
      * rewrite lookup_assign_same in H. injection H as <-.
        right. now left.
      * rewrite lookup_assign_other in H by assumption. now left.
Qed.

(** Without a name map the loop registers nothing. *)
Lemma compile_from_names_none (ks : list string) :
  forall c, names_ c = None -> names_ (compile_from item c ks) = None.
Proof.
  induction ks as [|k r IH]; intros c Hn; [assumption|].
  unfold compile_from in *. cbn [fold_left]. apply IH.
  destruct (compile_field_names c k) as (_ & ->). now rewrite Hn.
Qed.

(** The value map after the rounds over [ks]: a field at position [j]
    whose value is not [''] has its value under [:val(i + j + 1)]. *)
Lemma compile_from_values (ks : list string) :
  forall (c : Compiler) (v0 : Obj Value),
    values_ c = Some v0 ->
    exists v',
      values_ (compile_from item c ks) = Some v'
      /\ (forall j k, nth_error ks j = Some k ->
            strict_neq_empty (get item k) = true ->
            lookup v' (":val" ++ decimal (i c + j + 1))
            = Some (get item k))
      /\ (forall m, m <= i c ->
            lookup v' (":val" ++ decimal m)
            = lookup v0 (":val" ++ decimal m)).
Proof.
  induction ks as [|k r IH]; intros c v0 Hv.
  - exists v0. simpl. repeat split; auto.
    intros j k H. now destruct j.
  - destruct (compile_field_step c k v0 Hv) as (Hi & _ & Hstep).
    unfold compile_from in *. cbn [fold_left].
    set (c1 := compile_field item c k) in *.
    destruct (strict_neq_empty (get item k)) eqn:E.
    + destruct Hstep as (_ & _ & _ & _ & Hv1).
      destruct (IH c1 _ Hv1) as (v' & E' & P1 & P2).
      exists v'. split; [assumption|]. rewrite Hi in P1, P2.
      split.
      * intros [|j] f H T; simpl in H.
        -- injection H as <-. rewrite Nat.add_0_r.
           rewrite P2 by lia. apply lookup_assign_same.
        -- replace (i c + S j + 1) with (i c + 1 + j + 1) by lia.
           now apply P1.
      * intros m Hm. rewrite P2 by lia.
        apply lookup_assign_other. intros H. apply val_inj in H. lia.
    + destruct Hstep as (_ & _ & _ & _ & Hv1).
      destruct (IH c1 _ Hv1) as (v' & E' & P1 & P2).
      exists v'. split; [assumption|]. rewrite Hi in P1, P2.
      split.
      * intros [|j] f H T; simpl in H.
        -- injection H as <-. congruence.
        -- replace (i c + S j + 1) with (i c + 1 + j + 1) by lia.
           now apply P1.
      * intros m Hm. apply P2. lia.
Qed.

Lemma In_set_indices (ks : list string) :
  forall i0 m,
    In m (set_indices item i0 ks)
    <-> exists j k, nth_error ks j = Some k /\ m = i0 + j + 1
                    /\ strict_neq_empty (get item k) = true.
Proof.
  induction ks as [|k r IH]; intros i0 m; simpl.
  - split; [tauto|]. intros (j & k & H & _). now destruct j.
  - assert (In m (set_indices item (i0 + 1) r)
            <-> exists j f, nth_error (k :: r) (S j) = Some f
                            /\ m = i0 + S j + 1
                            /\ strict_neq_empty (get item f) = true) as T.
    { rewrite IH. simpl. split; intros (j & f & H1 & H2 & H3);
        exists j, f; repeat split; auto; lia. }
    destruct (strict_neq_empty (get item k)) eqn:E; simpl; rewrite T.
    + split.
      * intros [<-|(j & f & H)].
        -- exists 0, k. simpl. repeat split; auto; lia.
        -- exists (S j), f. assumption.
      * intros ([|j] & f & H1 & H2 & H3).
        -- left. lia.
        -- right. exists j, f. auto.
    + split.
      * intros (j & f & H). exists (S j), f. assumption.
      * intros ([|j] & f & H1 & H2 & H3).
        -- simpl in H1. injection H1 as <-. congruence.
        -- exists j, f. auto.
Qed.

Lemma In_remove_indices (ks : list string) :
  forall i0 m,
    In m (remove_indices item i0 ks)
    <-> exists j k, nth_error ks j = Some k /\ m = i0 + j + 1
                    /\ strict_neq_empty (get item k) = false.
Proof.
  induction ks as [|k r IH]; intros i0 m; simpl.
  - split; [tauto|]. intros (j & k & H & _). now destruct j.
  - assert (In m (remove_indices item (i0 + 1) r)
            <-> exists j f, nth_error (k :: r) (S j) = Some f
                            /\ m = i0 + S j + 1
                            /\ strict_neq_empty (get item f) = false) as T.
    { rewrite IH. simpl. split; intros (j & f & H1 & H2 & H3);
        exists j, f; repeat split; auto; lia. }
    destruct (strict_neq_empty (get item k)) eqn:E; simpl; rewrite T.
    + split.
      * intros (j & f & H). exists (S j), f. assumption.
      * intros ([|j] & f & H1 & H2 & H3).
        -- simpl in H1. injection H1 as <-. congruence.
        -- exists j, f. auto.
    + split.
      * intros [<-|(j & f & H)].
        -- exists 0, k. simpl. repeat split; auto; lia.
        -- exists (S j), f. assumption.
      * intros ([|j] & f & H1 & H2 & H3).
        -- left. lia.
        -- right. exists j, f. auto.
Qed.
End Loop.


(* ================================================================= *)
(** ** Running [updateWithAttributes] *)

Lemma forEach_exclude_run (item : Ref) (keys : list string) :
  forall w,
    exists w',
      forEach keys (fun k =>
        it <- deref item ;;
        if truthy (get it k) then heap_delete item k else ret tt) w
      = (Resolved tt, w')
      /\ heap w' item = exclude keys (heap w item)
      /\ (forall r, r <> item -> heap w' r = heap w r)
      /\ dates w' = dates w
      /\ uuids w' = uuids w
      /\ network w' = network w.
Proof.
  induction keys as [|k r IH]; intros w.
  - exists w. simpl. repeat split; auto.
  - cbn [forEach]. unfold bind at 1. unfold bind at 1. unfold deref at 1.
    unfold exclude. cbn [fold_left]. unfold exclude_field at 2.
    destruct (truthy (get (heap w item) k)) eqn:T.
    + unfold heap_delete at 1.
      match goal with
      | |- context [forEach r ?f ?w1] => destruct (IH w1) as (w' & E & H1 & H2 & H3 & H4 & H5)
      end.
      exists w'. rewrite E. split; [reflexivity|].
      cbn [heap dates uuids network] in *. unfold write in H1, H2.
      rewrite Nat.eqb_refl in H1.
      repeat split; auto.
      intros r0 N. rewrite H2 by assumption.
      apply Nat.eqb_neq in N. now rewrite N.
    + unfold ret at 1.
      destruct (IH w) as (w' & E & H).
      exists w'. rewrite E. split; [reflexivity | assumption].
Qed.

(** The whole call in one equation: the caller's map is left as the
    surviving fields, exactly one request goes out, and the call settles as
    the store answers it. *)
Lemma updateWithAttributes_eq (rt : Runtime) (this : DynamoDBAdapter)
  (originParams : UpdateItemInput) (item : Ref) (w : World) :
  let params := update_request rt this originParams item w in
  exists w',
    updateWithAttributes rt this originParams item w
    = (match doc_update (doc this) (network w) params with
       | inr _ =>
           Resolved (update_respondData this originParams
                       (surviving rt this originParams item w))
       | inl e => Rejected (ThrownBoom (handleError e))
       end, w')
    /\ heap w' item = surviving rt this originParams item w
    /\ (forall r, r <> item -> heap w' r = heap w r)
    /\ network w' = (network w ++ [ReqUpdate params])%list.
Proof.
  cbv zeta. unfold updateWithAttributes.
  unfold update_request, update_respondData, surviving, stamp_updated.
  set (keys := Object_keys (upd_Key originParams)).
  unfold bind at 1.
  destruct (schema_has this "updated") eqn:U.
  - unfold bind at 1. unfold new_Date_toISOString at 1.
    unfold heap_assign at 1. cbn [heap dates uuids network].
    unfold bind at 1.
    match goal with
    | |- context [forEach keys ?f ?w1] =>
        destruct (forEach_exclude_run item keys w1)
          as (w' & E & H1 & H2 & H3 & H4 & H5)
    end.
    rewrite E. cbn [heap dates uuids network] in *.
    unfold write in H1, H2. rewrite Nat.eqb_refl in H1.
    unfold bind at 1. unfold deref at 1.
    unfold try_catch, bind, await_update, deref, send, settle, ret, throw.
    cbn [heap dates uuids network].
    rewrite H1, H5.
    destruct (doc_update (doc this) (network w) _) as [e|[]];
      eexists; (split; [reflexivity|]);
      cbn [heap network]; repeat split; auto;
      intros r N; rewrite H2 by assumption;
      apply Nat.eqb_neq in N; now rewrite N.
  - unfold ret at 1. unfold bind at 1.
    destruct (forEach_exclude_run item keys w)
      as (w' & E & H1 & H2 & H3 & H4 & H5).
    rewrite E.
    unfold bind at 1. unfold deref at 1.
    unfold try_catch, bind, await_update, deref, send, settle, ret, throw.
    cbn [heap dates uuids network].
    rewrite H1, H5.
    destruct (doc_update (doc this) (network w) _) as [e|[]];
      eexists; (split; [reflexivity|]);
      cbn [heap network]; repeat split; auto.
Qed.

Lemma updateWithAttributes_run (rt : Runtime) (this : DynamoDBAdapter)
  (originParams : UpdateItemInput) (item : Ref) (w : World) :
  let p := updateWithAttributes rt this originParams item in
  let params := update_request rt this originParams item w in
  heap (after p w) item = surviving rt this originParams item w
  /\ (forall r, r <> item -> heap (after p w) r = heap w r)
  /\ network (after p w) = (network w ++ [ReqUpdate params])%list
  /\ outcome p w
     = match doc_update (doc this) (network w) params with
       | inr _ =>
           Resolved (update_respondData this originParams
                       (surviving rt this originParams item w))
       | inl e => Rejected (ThrownBoom (handleError e))
       end.
Proof.
  cbv zeta. unfold after, outcome.
  destruct (updateWithAttributes_eq rt this originParams item w)
    as (w' & E & H1 & H2 & H3).
  rewrite E. cbn [fst snd]. auto.
Qed.

(* ================================================================= *)
(** ** The request [updateWithAttributes] sends *)

Section Request.
Variables (rt : Runtime) (this : DynamoDBAdapter).
Variables (originParams : UpdateItemInput) (item : Ref) (w : World).

Lemma params0_values :
  to_option (upd_ExpressionAttributeValues
               (extendParams (spread_defaults originParams) (tableName this)))
  = if values_usable originParams then Some (base_values originParams)
    else None.
Proof.
  unfold values_usable, base_values, extendParams, spread_defaults. cbn.
  now destruct (upd_ExpressionAttributeValues originParams).
Qed.

Lemma params0_names :
  to_option (upd_ExpressionAttributeNames
               (extendParams (spread_defaults originParams) (tableName this)))
  = if names_usable originParams then Some (base_names originParams)
    else None.
Proof.
  unfold names_usable, base_names, extendParams, spread_defaults. cbn.
  now destruct (upd_ExpressionAttributeNames originParams).
Qed.

Lemma params0_expression :
  match upd_UpdateExpression
          (extendParams (spread_defaults originParams) (tableName this)) with
  | Holds e => e
  | Absent | Undefined => "undefined"
  end
  = base_expression originParams.
Proof.
  unfold base_expression, extendParams, spread_defaults. cbn.
  now destruct (upd_UpdateExpression originParams).
Qed.

(** The expression is the caller's, then [' '] and the SET clause, then
    [' '] and the REMOVE clause, both clauses numbered by one counter. *)
Lemma update_request_expression :
  let A := surviving rt this originParams item w in
  let ks := Object_keys A in
  upd_UpdateExpression (update_request rt this originParams item w)
  = Holds (base_expression originParams
           ++ (" " ++ set_clause (set_placed originParams A ks))
           ++ (" " ++ remove_clause (remove_placed originParams A ks))).
Proof.
  cbv zeta. unfold update_request.
  set (A := surviving rt this originParams item w).
  unfold finish. cbn [upd_UpdateExpression]. rewrite params0_expression.
  unfold compile, set_placed, remove_placed.
  rewrite params0_values.
  set (n0 := to_option _).
  destruct (values_usable originParams).
  - destruct (compile_from_clauses A (Object_keys A)
                (mkCompiler 0 0 0 " " " " n0
                   (Some (base_values originParams)))
                (base_values originParams) [] [])
      as (_ & _ & Hs & _ & Hr); try reflexivity.
    cbn [i app] in Hs, Hr. now rewrite Hs, Hr.
  - destruct (compile_from_no_values A (Object_keys A)
                (mkCompiler 0 0 0 " " " " n0 None) [])
      as (_ & Hs & _ & Hr & _); try reflexivity.
    cbn [i app UpdateExpressionSetAction] in Hs, Hr.
    now rewrite Hs, Hr.
Qed.

(** The value map is dropped exactly when no field is set. *)
Lemma update_request_values :
  let A := surviving rt this originParams item w in
  let ks := Object_keys A in
  match set_placed originParams A ks with
  | [] =>
      upd_ExpressionAttributeValues
        (update_request rt this originParams item w) = Absent
  | _ :: _ =>
      exists values,
        upd_ExpressionAttributeValues
          (update_request rt this originParams item w) = Holds values
        /\ forall j f, nth_error ks j = Some f ->
             strict_neq_empty (get A f) = true ->
             lookup values (":val" ++ decimal (j + 1)) = Some (get A f)
  end.
Proof.
  cbv zeta. unfold update_request.
  set (A := surviving rt this originParams item w).
  unfold finish. cbn [upd_ExpressionAttributeValues].
  unfold compile, set_placed. rewrite params0_values.
  set (n0 := to_option _).
  destruct (values_usable originParams).
  - set (c0 := mkCompiler 0 0 0 " " " " n0
                 (Some (base_values originParams))).
    destruct (compile_from_clauses A (Object_keys A) c0
                (base_values originParams) [] [])
      as (_ & Hs & _); try reflexivity.
    destruct (compile_from_values A (Object_keys A) c0
                (base_values originParams))
      as (values & Hv & P & _); try reflexivity.
    change (i c0) with 0 in Hs, P. cbn [app] in Hs, P. rewrite Hs, Hv.
    destruct (set_indices A 0 (Object_keys A)) as [|m l];
      cbn [length Nat.eqb].
    + reflexivity.
    + exists values. split; [reflexivity|]. exact P.
  - destruct (compile_from_no_values A (Object_keys A)
                (mkCompiler 0 0 0 " " " " n0 None) [])
      as (Hs & _); try reflexivity.
    cbn [set] in Hs. now rewrite Hs.
Qed.

(** The name map: the field at position [j] of [Object.keys] is under
    [#param(j+1)], and the compiler adds names of surviving fields only;
    a property holding [undefined] stays as it is. *)
Lemma update_request_names :
  let A := surviving rt this originParams item w in
  let ks := Object_keys A in
  if names_usable originParams then
    exists names,
      upd_ExpressionAttributeNames
        (update_request rt this originParams item w) = Holds names
      /\ (forall j f, nth_error ks j = Some f ->
            lookup names ("#param" ++ decimal (j + 1)) = Some f)
      /\ (forall ph f, lookup names ph = Some f ->
            lookup (base_names originParams) ph = Some f \/ In f ks)
  else
    upd_ExpressionAttributeNames
      (update_request rt this originParams item w) = Undefined.
Proof.
  cbv zeta. unfold update_request.
  set (A := surviving rt this originParams item w).
  unfold finish. cbn [upd_ExpressionAttributeNames].
  unfold compile. rewrite params0_names.
  set (v0 := to_option _).
  destruct (names_usable originParams) eqn:U.
  - set (c0 := mkCompiler 0 0 0 " " " " (Some (base_names originParams)) v0).
    destruct (compile_from_names A (Object_keys A) c0
                (base_names originParams))
      as (names & Hn & P1 & _ & P3); try reflexivity.
    exists names. rewrite Hn. change (i c0) with 0 in P1. auto.
  - rewrite compile_from_names_none by reflexivity.
    unfold names_usable in U. unfold extendParams, spread_defaults. cbn.
    now destruct (upd_ExpressionAttributeNames originParams).
Qed.

(** With a name map in reach, the request has one. *)
Lemma update_request_names_usable :
  names_usable originParams = true ->
  exists names,
    upd_ExpressionAttributeNames
      (update_request rt this originParams item w) = Holds names.
Proof.
  intros U. pose proof update_request_names as H. cbv zeta in H.
  rewrite U in H. destruct H as (names & Hn & _). now exists names.
Qed.
End Request.

(** A field is numbered once, and its index is in one clause only. *)
Lemma field_in_one_clause (A : Obj Value) (ks : list string)
  (j : nat) (f : string) :
  nth_error ks j = Some f ->
  if strict_neq_empty (get A f)
  then In (j + 1) (set_indices A 0 ks)
       /\ ~ In (j + 1) (remove_indices A 0 ks)
  else In (j + 1) (remove_indices A 0 ks)
       /\ ~ In (j + 1) (set_indices A 0 ks).
Proof.
  intros H. destruct (strict_neq_empty (get A f)) eqn:E; split.
  - apply In_set_indices. exists j, f. auto.
  - intros I. apply In_remove_indices in I.
    destruct I as (j' & f' & H1 & H2 & H3).
    assert (j' = j) by lia. subst j'. congruence.
  - apply In_remove_indices. exists j, f. auto.
  - intros I. apply In_set_indices in I.
    destruct I as (j' & f' & H1 & H2 & H3).
    assert (j' = j) by lia. subst j'. congruence.
Qed.

Lemma only_sentinels_indices (A : Obj Value) (ks : list string) :
  (forall f, In f ks -> get A f = JStr "") ->
  forall i0,
    set_indices A i0 ks = []
    /\ remove_indices A i0 ks = seq (i0 + 1) (length ks).
Proof.
  induction ks as [|k r IH]; intros H i0; simpl; [auto|].
  rewrite (H k) by now left. simpl.
  destruct (IH (fun f I => H f (or_intror I)) (i0 + 1)) as [E1 E2].
  rewrite E1, E2. split; [reflexivity|].
  do 2 f_equal. lia.
Qed.

Lemma occurs_S_remove_clause (l : list nat) :
  occurs "S" (remove_clause l) = false.
Proof.
  unfold remove_clause, clause, remove_term. destruct l as [|j r].
  - reflexivity.
  - rewrite !occurs_append, occurs_S_decimal. simpl.
    induction r as [|a r IH]; simpl; [reflexivity|].
    now rewrite !occurs_append, occurs_S_decimal, IH.
Qed.

(* ================================================================= *)
(** ** Properties of [updateWithAttributes] *)




(** C1, as stated, fails: a key field whose value in the attribute map is
    falsy is not removed.  With key [{id: 0}] and attributes
    [{id: 0, name: 'Bob'}], [id] stays in the caller's map and is compiled
    into the SET clause under [#param1] and [:val1]. *)
Lemma key_field_with_falsy_value_is_compiled :
  let p := updateWithAttributes sample_runtime (model acknowledging "T" None)
             (key_only [("id", JNum 0)]) 0 in
  let w := world_with [("id", JNum 0); ("name", JStr "Bob")] in
  network (after p w)
  = [ReqUpdate
       (mkUpdateItemInput "T" [("id", JNum 0)]
          (Holds " SET #param1 = :val1, #param2 = :val2 ")
          (Holds [("#param1", "id"); ("#param2", "name")])
          (Holds [(":val1", JNum 0); (":val2", JStr "Bob")])
          None (Some "INDEXES"))]
  /\ heap (after p w) 0 = [("id", JNum 0); ("name", JStr "Bob")].
Proof. split; reflexivity. Qed.

(** C1, amended. A field of the attribute map that is named by the key and
    whose value is truthy when the exclusion loop runs is removed before
    compilation: it is not among the fields left in the caller's map, and
    the name map sent to the store (there is one unless the caller's own
    property holds [undefined]) maps a placeholder to it only where the
    caller's own name map already did. *)
Theorem key_fields_with_truthy_value_excluded
  (rt : Runtime) (this : DynamoDBAdapter)
  (originParams : UpdateItemInput) (item : Ref) (w : World) (k : string) :
  In k (Object_keys (upd_Key originParams)) ->
  truthy (get (stamp_updated rt this item w) k) = true ->
  let p := updateWithAttributes rt this originParams item in
  ~ In k (Object_keys (heap (after p w) item))
  /\ exists params,
       network (after p w) = (network w ++ [ReqUpdate params])%list
       /\ (names_usable originParams = true ->
           exists names, upd_ExpressionAttributeNames params = Holds names)
       /\ forall names,
            upd_ExpressionAttributeNames params = Holds names ->
            forall ph, lookup names ph = Some k ->
              lookup (base_names originParams) ph = Some k.
Proof.
  intros Hk Ht. cbv zeta.
  destruct (updateWithAttributes_run rt this originParams item w)
    as (HA & _ & Hnet & _).
  rewrite HA.
  assert (~ In k (Object_keys (surviving rt this originParams item w))) as N.
  { rewrite In_Object_keys. unfold surviving. rewrite In_names_exclude.
    tauto. }
  split; [assumption|].
  exists (update_request rt this originParams item w).
  split; [assumption|].
  split; [apply update_request_names_usable|].
  intros names Hn ph H.
  pose proof (update_request_names rt this originParams item w) as P.
  cbv zeta in P. destruct (names_usable originParams).
  - destruct P as (names' & Hn' & _ & P).
    rewrite Hn in Hn'. injection Hn' as <-.
    destruct (P ph k H) as [B|I]; [assumption | contradiction].
  - congruence.
Qed.

(** C1 amended, at key [{id: '1'}] and attributes [{id: '1', name: 'Bob'}]. *)
Lemma key_fields_with_truthy_value_excluded_witness :
  let p := updateWithAttributes sample_runtime (model acknowledging "T" None)
             (key_only [("id", JStr "1")]) 0 in
  let w := world_with [("id", JStr "1"); ("name", JStr "Bob")] in
  ~ In "id" (Object_keys (heap (after p w) 0))
  /\ exists params names,
       network (after p w) = (network w ++ [ReqUpdate params])%list
       /\ upd_ExpressionAttributeNames params = Holds names
       /\ forall ph, lookup names ph = Some "id" ->
            lookup (base_names (key_only [("id", JStr "1")])) ph = Some "id".
Proof.
  cbv zeta.
  destruct (key_fields_with_truthy_value_excluded sample_runtime
              (model acknowledging "T" None) (key_only [("id", JStr "1")]) 0
              (world_with [("id", JStr "1"); ("name", JStr "Bob")]) "id")
    as (N & params & Hnet & E & P).
  - simpl. left. reflexivity.
  - reflexivity.
  - split; [exact N|].
    destruct (E eq_refl) as (names & Hn).
    exists params, names. split; [exact Hnet|]. split; [exact Hn|].
    exact (P names Hn).
Defined.

(** C2. With key [{id: '1'}], attributes [{name: 'Bob', note: ''}] and a
    schema that does not manage [updated], the request carries the
    expression [" SET #param1 = :val1 REMOVE #param2"], the names
    [{#param1: name, #param2: note}] and the values [{:val1: 'Bob'}], and
    an acknowledged call returns [{id: '1'}].  For every call, the field at
    position [j] of the surviving map is registered under [#param(j+1)]
    (in the name map, when the loop has one to write to), and the SET and
    REMOVE clauses draw their indices from that one numbering. *)
Theorem updateAttributes_scenario
  (rt : Runtime) (this : DynamoDBAdapter) (item : Ref) (w : World) :
  schema_has this "updated" = false ->
  heap w item = [("name", JStr "Bob"); ("note", JStr "")] ->
  let p := updateWithAttributes rt this (key_only [("id", JStr "1")]) item in
  let params :=
    mkUpdateItemInput (tableName this) [("id", JStr "1")]
      (Holds " SET #param1 = :val1 REMOVE #param2")
      (Holds [("#param1", "name"); ("#param2", "note")])
      (Holds [(":val1", JStr "Bob")])
      None (Some "INDEXES") in
  network (after p w) = (network w ++ [ReqUpdate params])%list
  /\ (forall u, doc_update (doc this) (network w) params = inr u ->
        outcome p w = Resolved [("id", JStr "1")])
  /\ forall originParams' item' w',
       let A := surviving rt this originParams' item' w' in
       let request := update_request rt this originParams' item' w' in
       upd_UpdateExpression request
       = Holds (base_expression originParams'
                ++ (" " ++ set_clause
                             (set_placed originParams' A (Object_keys A)))
                ++ (" " ++ remove_clause
                             (remove_placed originParams' A (Object_keys A))))
       /\ (values_usable originParams' = true ->
           set_placed originParams' A (Object_keys A)
           = set_indices A 0 (Object_keys A)
           /\ remove_placed originParams' A (Object_keys A)
              = remove_indices A 0 (Object_keys A))
       /\ (names_usable originParams' = true ->
           exists names,
             upd_ExpressionAttributeNames request = Holds names
             /\ forall j f, nth_error (Object_keys A) j = Some f ->
                  lookup names ("#param" ++ decimal (j + 1)) = Some f).
Proof.
  intros U H. cbv zeta.
  destruct (updateWithAttributes_run rt this (key_only [("id", JStr "1")])
              item w) as (_ & _ & Hnet & Hout).
  assert (surviving rt this (key_only [("id", JStr "1")]) item w
          = [("name", JStr "Bob"); ("note", JStr "")]) as HA.
  { unfold surviving, stamp_updated. rewrite U, H. reflexivity. }
  assert (update_request rt this (key_only [("id", JStr "1")]) item w
          = mkUpdateItemInput (tableName this) [("id", JStr "1")]
              (Holds " SET #param1 = :val1 REMOVE #param2")
              (Holds [("#param1", "name"); ("#param2", "note")])
              (Holds [(":val1", JStr "Bob")])
              None (Some "INDEXES")) as HR.
  { unfold update_request. rewrite HA. reflexivity. }
  rewrite HR in Hnet, Hout.
  split; [assumption|]. split.
  - intros u Hu. rewrite Hout, Hu, HA.
    unfold update_respondData. rewrite U. reflexivity.
  - intros originParams' item' w'. split.
    + apply update_request_expression.
    + split.
      * intros V. unfold set_placed, remove_placed. rewrite V. auto.
      * intros N.
        pose proof (update_request_names rt this originParams' item' w') as P.
        cbv zeta in P. rewrite N in P.
        destruct P as (names & Hn & P & _). exists names. auto.
Qed.

(** C2, on the sample store. *)
Lemma updateAttributes_scenario_witness :
  let p := updateWithAttributes sample_runtime (model acknowledging "T" None)
             (key_only [("id", JStr "1")]) 0 in
  let w := world_with [("name", JStr "Bob"); ("note", JStr "")] in
  network (after p w)
  = [ReqUpdate
       (mkUpdateItemInput "T" [("id", JStr "1")]
          (Holds " SET #param1 = :val1 REMOVE #param2")
          (Holds [("#param1", "name"); ("#param2", "note")])
          (Holds [(":val1", JStr "Bob")])
          None (Some "INDEXES"))]
  /\ outcome p w = Resolved [("id", JStr "1")].
Proof.
  destruct (updateAttributes_scenario sample_runtime
              (model acknowledging "T" None) 0
              (world_with [("name", JStr "Bob"); ("note", JStr "")])
              eq_refl eq_refl) as (Hnet & Hout & _).
  split; [exact Hnet | exact (Hout tt eq_refl)].
Defined.

(** C4, as stated, fails: the compiled clauses are appended to the caller's
    own [UpdateExpression], so the resulting expression can hold a SET
    clause although no field produces one.  With the caller's expression
    ['SET #a = :a'] and attributes [{note: ''}], the request carries
    ["SET #a = :a  REMOVE #param1"], and the caller's value map, [:a]
    included, is deleted. *)
Lemma caller_expression_precedes_the_clauses :
  let originParams :=
    mkUpdateItemInput "" [("id", JStr "1")] (Holds "SET #a = :a")
      (Holds [("#a", "a")]) (Holds [(":a", JNum 1)]) None None in
  let p := updateWithAttributes sample_runtime (model acknowledging "T" None)
             originParams 0 in
  let w := world_with [("note", JStr "")] in
  network (after p w)
  = [ReqUpdate
       (mkUpdateItemInput "T" [("id", JStr "1")]
          (Holds "SET #a = :a  REMOVE #param1")
          (Holds [("#a", "a"); ("#param1", "note")])
          Absent None (Some "INDEXES"))].
Proof. reflexivity. Qed.

(** C4, amended. When every surviving field is the empty string, the
    request has no [ExpressionAttributeValues] property at all, and what
    the call appends to the caller's expression is the two [' '] and a
    REMOVE clause over the indices [1..n]: no [S], hence no SET clause,
    occurs in it.  When the caller gave no [UpdateExpression], that is the
    whole expression. *)
Theorem only_sentinels_omit_values
  (rt : Runtime) (this : DynamoDBAdapter)
  (originParams : UpdateItemInput) (item : Ref) (w : World) :
  let p := updateWithAttributes rt this originParams item in
  let A := heap (after p w) item in
  let compiled :=
    " " ++ " " ++ remove_clause (seq 1 (length (Object_keys A))) in
  (forall f, In f (Object_keys A) -> get A f = JStr "") ->
  exists params,
    network (after p w) = (network w ++ [ReqUpdate params])%list
    /\ upd_ExpressionAttributeValues params = Absent
    /\ upd_UpdateExpression params
       = Holds (base_expression originParams ++ compiled)
    /\ occurs "S" compiled = false
    /\ (upd_UpdateExpression originParams = Absent ->
        upd_UpdateExpression params = Holds compiled).
Proof.
  cbv zeta.
  destruct (updateWithAttributes_run rt this originParams item w)
    as (HA & _ & Hnet & _).
  rewrite HA. intros H.
  set (A := surviving rt this originParams item w) in *.
  destruct (only_sentinels_indices A (Object_keys A) H 0) as [ES ER].
  exists (update_request rt this originParams item w).
  split; [assumption|].
  pose proof (update_request_values rt this originParams item w) as V.
  pose proof (update_request_expression rt this originParams item w) as X.
  cbv zeta in V, X.
  fold A in V, X. unfold set_placed, remove_placed in V, X.
  rewrite ES in V, X. rewrite ER in X.
  assert ((if values_usable originParams then @nil nat else []) = []) as E1
    by now destruct (values_usable originParams).
  assert ((if values_usable originParams
           then seq (0 + 1) (length (Object_keys A))
           else seq 1 (length (Object_keys A)))
          = seq 1 (length (Object_keys A))) as E2
    by now destruct (values_usable originParams).
  rewrite E1 in V, X. rewrite E2 in X.
  split; [assumption|]. split; [exact X|].
  split.
  - cbn [append occurs Ascii.eqb Bool.eqb orb].
    apply occurs_S_remove_clause.
  - intros B. rewrite X. unfold base_expression. rewrite B. reflexivity.
Qed.

(** C4 amended, at attributes [{note: '', nick: ''}]. *)
Lemma only_sentinels_omit_values_witness :
  let p := updateWithAttributes sample_runtime (model acknowledging "T" None)
             (key_only [("id", JStr "1")]) 0 in
  let w := world_with [("note", JStr ""); ("nick", JStr "")] in
  exists params,
    network (after p w) = [ReqUpdate params]
    /\ upd_ExpressionAttributeValues params = Absent
    /\ upd_UpdateExpression params = Holds "  REMOVE #param1, #param2".
Proof.
  cbv zeta.
  destruct (only_sentinels_omit_values sample_runtime
              (model acknowledging "T" None) (key_only [("id", JStr "1")]) 0
              (world_with [("note", JStr ""); ("nick", JStr "")]))
    as (params & Hnet & Hv & _ & _ & He).
  - intros f [<-|[<-|[]]]; reflexivity.
  - exists params. split; [exact Hnet|]. split; [exact Hv|].
    exact (He eq_refl).
Defined.

(** C5, as stated, fails: nothing is checked before the store is called.
    With key [{id: '1'}] and an empty attribute map, one update request
    with the expression ["  "] goes out, and when the store acknowledges
    it the call returns [{id: '1'}]. *)
Lemma empty_attribute_map_reaches_store :
  let p := updateWithAttributes sample_runtime (model acknowledging "T" None)
             (key_only [("id", JStr "1")]) 0 in
  let w := world_with [] in
  outcome p w = Resolved [("id", JStr "1")]
  /\ network (after p w)
     = [ReqUpdate
          (mkUpdateItemInput "T" [("id", JStr "1")] (Holds "  ") (Holds [])
             Absent None (Some "INDEXES"))].
Proof. split; reflexivity. Qed.

(** C5, amended. When the attribute map is empty after key exclusion, the
    call makes no check of its own: it sends one update request whose
    expression is the caller's followed by two spaces, without a value
    map, and it settles as the store answers: with [respondData] on an
    acknowledgment, and on a rejection with the error [handleError] maps
    the store's to, which is NotFound, Conflict or Internal by the name of
    the store's error, and never a caller error. *)
Theorem empty_update_is_sent_unchecked
  (rt : Runtime) (this : DynamoDBAdapter)
  (originParams : UpdateItemInput) (item : Ref) (w : World) :
  let p := updateWithAttributes rt this originParams item in
  Object_keys (heap (after p w) item) = [] ->
  exists params,
    network (after p w) = (network w ++ [ReqUpdate params])%list
    /\ upd_UpdateExpression params
       = Holds (base_expression originParams ++ "  ")
    /\ upd_ExpressionAttributeValues params = Absent
    /\ outcome p w
       = match doc_update (doc this) (network w) params with
         | inr _ =>
             Resolved (update_respondData this originParams
                         (heap (after p w) item))
         | inl e => Rejected (ThrownBoom (handleError e))
         end
    /\ forall t,
         outcome p w = Rejected t ->
         exists e,
           doc_update (doc this) (network w) params = inl e
           /\ t = ThrownBoom (handleError e)
           /\ kind_of t
              = Some (if err_name e =? "NotFound" then NotFound
                      else if err_name e =? "ConditionalCheckFailedException"
                           then Conflict
                           else Internal)
           /\ kind_of t <> Some CallerError.
Proof.
  cbv zeta.
  destruct (updateWithAttributes_run rt this originParams item w)
    as (HA & _ & Hnet & Hout).
  rewrite HA. intros H.
  exists (update_request rt this originParams item w).
  pose proof (update_request_values rt this originParams item w) as V.
  pose proof (update_request_expression rt this originParams item w) as X.
  cbv zeta in V, X. unfold set_placed, remove_placed in V, X.
  rewrite H in V, X. cbn [set_indices remove_indices length seq] in V, X.
  assert ((if values_usable originParams then @nil nat else []) = []) as E1
    by now destruct (values_usable originParams).
  rewrite !E1 in V, X.
  split; [assumption|]. split; [exact X|]. split; [exact V|].
  split; [assumption|].
  intros t R. rewrite Hout in R.
  destruct (doc_update _ _ _) as [e|u]; [|discriminate].
  injection R as <-. exists e.
  assert (kind_of (ThrownBoom (handleError e))
          = Some (if err_name e =? "NotFound" then NotFound
                  else if err_name e =? "ConditionalCheckFailedException"
                       then Conflict
                       else Internal)) as K.
  { unfold handleError.
    destruct (err_name e =? "NotFound"); [reflexivity|].
    destruct (err_name e =? "ConditionalCheckFailedException"); reflexivity. }
  repeat split; [exact K|].
  rewrite K.
  destruct (err_name e =? "NotFound"); [discriminate|].
  destruct (err_name e =? "ConditionalCheckFailedException"); discriminate.
Qed.

(** C5 amended, on a store that rejects the request. *)
Lemma empty_update_is_sent_unchecked_witness :
  let e := mkAWSError "ValidationException" None in
  let p := updateWithAttributes sample_runtime (model (rejecting e) "T" None)
             (key_only [("id", JStr "1")]) 0 in
  let w := world_with [("id", JStr "1")] in
  exists params,
    network (after p w) = [ReqUpdate params]
    /\ upd_UpdateExpression params = Holds "  "
    /\ outcome p w
       = Rejected (ThrownBoom
           (Boom_badImplementation "Something went wrong with DB server.")).
Proof.
  cbv zeta.
  destruct (empty_update_is_sent_unchecked sample_runtime
              (model (rejecting (mkAWSError "ValidationException" None))
                 "T" None)
              (key_only [("id", JStr "1")]) 0
              (world_with [("id", JStr "1")]) eq_refl)
    as (params & Hnet & He & _ & Hout & _).
  exists params. split; [exact Hnet|]. split; [exact He|].
  rewrite Hout. reflexivity.
Defined.

(* ================================================================= *)
(** ** Running [create] and [findOne] *)

(** [create] in one equation: the caller's item is left stamped, one put
    request carrying it goes out, and a rejection by the store is passed
    on as it came. *)
Lemma create_eq (rt : Runtime) (this : DynamoDBAdapter)
  (item : PutItemInput) (itemId : option string) (w : World) :
  let params := extendParams item (tableName this) in
  let Item := created_item rt this item itemId w in
  exists w',
    create rt this item itemId w
    = (match doc_put (doc this) (network w) params Item with
       | inr _ => Resolved (create_respondData this Item)
       | inl e => Rejected (ThrownAWS e)
       end, w')
    /\ heap w' (put_Item item) = Item
    /\ (forall r, r <> put_Item item -> heap w' r = heap w r)
    /\ network w' = (network w ++ [ReqPut params Item])%list.
Proof.
  cbv zeta.
  unfold create, created_item, stamp_created, create_respondData, create_id.
  assert (forall (h : Ref -> Obj Value) r o r',
             r' <> r -> write h r o r' = h r') as Frame.
  { intros h r o r' N. unfold write. apply Nat.eqb_neq in N. now rewrite N. }
  assert (forall (h : Ref -> Obj Value) r o, write h r o r = o) as Same.
  { intros h r o. unfold write. now rewrite Nat.eqb_refl. }
  destruct (schema_has this "id"), (schema_has this "created"),
    (schema_has this "updated"), itemId as [s|];
    try destruct (negb (s =? ""));
    unfold bind, try_catch, ret, throw, uuidV1, new_Date_toISOString,
      heap_assign, deref, await_put, send, settle;
    cbn [heap dates uuids network put_Item];
    rewrite ?Same;
    repeat match goal with
      | |- context [truthy ?v] => destruct (truthy v)
      end;
    cbn [heap dates uuids network put_Item];
    rewrite ?Same;
    change (put_Item (extendParams item (tableName this)))
      with (put_Item item);
    rewrite ?Same;
    match goal with
    | |- context [doc_put ?d ?n ?q ?o] => destruct (doc_put d n q o) as [e|[]]
    end;
    eexists; (split; [reflexivity|]);
    cbn [heap network]; rewrite ?Same;
    (split; [reflexivity|]);
    (split; [|reflexivity]);
    intros r N; rewrite ?Frame by assumption; reflexivity.
Qed.

Lemma create_run (rt : Runtime) (this : DynamoDBAdapter)
  (item : PutItemInput) (itemId : option string) (w : World) :
  let p := create rt this item itemId in
  let params := extendParams item (tableName this) in
  let Item := created_item rt this item itemId w in
  heap (after p w) (put_Item item) = Item
  /\ (forall r, r <> put_Item item -> heap (after p w) r = heap w r)
  /\ network (after p w) = (network w ++ [ReqPut params Item])%list
  /\ outcome p w
     = match doc_put (doc this) (network w) params Item with
       | inr _ => Resolved (create_respondData this Item)
       | inl e => Rejected (ThrownAWS e)
       end.
Proof.
  cbv zeta. unfold after, outcome.
  destruct (create_eq rt this item itemId w) as (w' & E & H1 & H2 & H3).
  rewrite E. cbn [fst snd]. auto.
Qed.

(** [findOne] in one equation: one get request for the given key, the item
    when the store returns one, [NotFound] when it returns none, and the
    store's error as it came when the store rejects. *)
Lemma findOne_eq (this : DynamoDBAdapter) (key : Obj Value)
  (originParams : option GetItemInput) (w : World) :
  let params := get_request this key originParams in
  findOne this key originParams w
  = (match doc_get (doc this) (network w) params with
     | inr data =>
         match out_Item data with
         | Some Item => Resolved Item
         | None =>
             Rejected (ThrownBoom
               (Boom_notFound "Requested resource not found."))
         end
     | inl e => Rejected (ThrownAWS e)
     end,
     send (ReqGet params) w).
Proof.
  cbv zeta.
  unfold findOne, bind, try_catch, await_get, settle, ret, throw.
  fold (get_request this key originParams).
  destruct (doc_get (doc this) (network w) _) as [e|[[Item|]]];
    reflexivity.
Qed.

Lemma get_request_Key (this : DynamoDBAdapter) (key : Obj Value)
  (originParams : option GetItemInput) :
  get_Key (get_request this key originParams) = key.
Proof.
  unfold get_request.
  destruct originParams as [q|]; [|reflexivity].
  destruct (get_ProjectionExpression q) as [e|]; [|reflexivity].
  destruct (negb (e =? "")); reflexivity.
Qed.

(* ================================================================= *)
(** ** The projection builder *)

Lemma projection_clause_snoc (l : list string) (f : string) :
  projection_clause (l ++ [f])
  = projection_clause l
    ++ (if (length l =? 0)%nat then "#" ++ f else ", #" ++ f).
Proof.
  destruct l as [|a r]; simpl.
  - now rewrite append_nil_r.
  - f_equal. rewrite !append_assoc. f_equal.
    induction r as [|b r IH]; simpl.
    + now rewrite append_nil_r.
    + rewrite IH. now rewrite !append_assoc.
Qed.

(** The rounds of [forEach] keep the fields in order and register each
    [#field] under its field. *)
Lemma projection_fold (ks : list string) :
  forall (done : list string) (p : Projection),
    ProjectionExpression p = projection_clause done ->
    (forall f, In f done ->
       lookup (ExpressionAttributeNames p) ("#" ++ f) = Some f) ->
    let p' := snd (fold_left projection_field ks (length done, p)) in
    ProjectionExpression p' = projection_clause (done ++ ks)
    /\ forall f, In f (done ++ ks) ->
         lookup (ExpressionAttributeNames p') ("#" ++ f) = Some f.
Proof.
  induction ks as [|k r IH]; intros done p He Hn.
  - simpl. rewrite app_nil_r. auto.
  - cbn [fold_left].
    assert (projection_field (length done, p) k
            = (length (done ++ [k]),
               mkProjection
                 (ProjectionExpression p
                  ++ (if (length done =? 0)%nat then "#" ++ k
                      else ", #" ++ k))
                 (assign (ExpressionAttributeNames p) ("#" ++ k) k))) as ->.
    { unfold projection_field. rewrite length_app. reflexivity. }
    replace (done ++ k :: r)%list with ((done ++ [k]) ++ r)%list
      by (rewrite <- app_assoc; reflexivity).
    apply IH; cbn [ProjectionExpression ExpressionAttributeNames].
    + now rewrite projection_clause_snoc, He.
    + intros f I.
      destruct (String.eqb_spec ("#" ++ k) ("#" ++ f)) as [E|N].
      * rewrite E, lookup_assign_same. now injection E as ->.
      * rewrite lookup_assign_other by assumption.
        apply in_app_iff in I. destruct I as [I|[<-|[]]]; [auto | congruence].
Qed.

(** The JavaScript revision meets the contract on every field list. *)
Lemma Legacy_projectionExpression_contract (fields : string) :
  exists pr,
    Legacy.projectionExpression (Some fields) = inr pr
    /\ ProjectionExpression pr = projection_clause (split_comma fields)
    /\ forall f, In f (split_comma fields) ->
         lookup (ExpressionAttributeNames pr) ("#" ++ f) = Some f.
Proof.
  unfold Legacy.projectionExpression, Array_isArray_array. cbn [negb].
  eexists. split; [reflexivity|].
  apply (projection_fold (split_comma fields) [] (mkProjection "" []));
    [reflexivity | intros f []].
Qed.

(** C6 does not hold of [index.ts]: [Array.isArray] is asked of [fields],
    the string, so [projectionExpression] returns [undefined] on every
    input, ['a,b,c'] included, and [findOne] sends the caller's
    [ProjectionExpression] as it came.  The JavaScript revision, which
    tests the array, returns the object the claim describes. *)
Theorem projectionExpression_returns_undefined :
  (forall fields, projectionExpression fields = None)
  /\ projectionExpression (Some "a,b,c") = None
  /\ (forall this key q,
        get_ProjectionExpression (get_request this key (Some q))
        = get_ProjectionExpression q)
  /\ Legacy.projectionExpression (Some "a,b,c")
     = inr (mkProjection "#a, #b, #c"
              [("#a", "a"); ("#b", "b"); ("#c", "c")]).
Proof.
  split; [reflexivity|]. split; [reflexivity|]. split; [|reflexivity].
  intros this key q. unfold get_request.
  destruct (get_ProjectionExpression q) as [e|] eqn:E; [|now rewrite E].
  destruct (negb (e =? "")); cbn; now rewrite E.
Qed.

(* ================================================================= *)
(** ** Errors *)

(** C7 does not hold of [create]: its [catch] rethrows the store's error.
    When the store rejects the put with [ConditionalCheckFailedException],
    [create] fails with that raw error, which has no domain kind, whereas
    [updateWithAttributes], on the same store, fails with the Conflict
    error [handleError] builds. *)
Theorem create_conflict_is_not_mapped
  (rt : Runtime) (table : string) (schema : Schema)
  (item : PutItemInput) (itemId : option string) (w : World)
  (message : option string) :
  let e := mkAWSError "ConditionalCheckFailedException" message in
  let this := model (rejecting e) table schema in
  outcome (create rt this item itemId) w = Rejected (ThrownAWS e)
  /\ kind_of (ThrownAWS e) = None
  /\ forall originParams attributes,
       outcome (updateWithAttributes rt this originParams attributes) w
       = Rejected (ThrownBoom
                     (Boom_conflict "Requested resource already exists.")).
Proof.
  cbv zeta. split; [|split; [reflexivity|]].
  - destruct (create_run rt
                (model (rejecting
                          (mkAWSError "ConditionalCheckFailedException"
                             message)) table schema) item itemId w)
      as (_ & _ & _ & Hout).
    exact Hout.
  - intros originParams attributes.
    destruct (updateWithAttributes_run rt
                (model (rejecting
                          (mkAWSError "ConditionalCheckFailedException"
                             message)) table schema)
                originParams attributes w)
      as (_ & _ & _ & Hout).
    exact Hout.
Qed.

(** C8. When the store holds no item under the key, so that it answers a
    get for that key without an [Item], [findOne] fails with the NotFound
    error: it neither returns a value nor passes a backend error on. *)
Theorem findOne_absent_is_NotFound
  (this : DynamoDBAdapter) (key : Obj Value)
  (originParams : option GetItemInput) (w : World) :
  (forall params, get_Key params = key ->
     doc_get (doc this) (network w) params = inr (mkGetItemOutput None)) ->
  exists error,
    outcome (findOne this key originParams) w = Rejected error
    /\ error = ThrownBoom (Boom_notFound "Requested resource not found.")
    /\ kind_of error = Some NotFound.
Proof.
  intros H. eexists. unfold outcome. rewrite findOne_eq. cbv zeta.
  rewrite H by apply get_request_Key. cbn [fst out_Item].
  repeat split.
Qed.

(** C8, at the key [{id: 'missing'}]. *)
Lemma findOne_absent_is_NotFound_witness :
  exists error,
    outcome (findOne (model acknowledging "T" None)
               [("id", JStr "missing")] None) (world_with [])
    = Rejected error
    /\ error = ThrownBoom (Boom_notFound "Requested resource not found.")
    /\ kind_of error = Some NotFound.
Proof.
  apply (findOne_absent_is_NotFound (model acknowledging "T" None)
           [("id", JStr "missing")] None (world_with [])).
  intros params _. reflexivity.
Defined.

(* ================================================================= *)
(** ** The field lifecycle of [create] *)

Lemma get_stamp_created_created (rt : Runtime) (this : DynamoDBAdapter)
  (item : PutItemInput) (itemId : option string) (w : World) :
  get (stamp_created rt this item itemId w) "created"
  = if schema_has this "created" then JStr (clock rt (dates w))
    else get (heap w (put_Item item)) "created".
Proof.
  unfold stamp_created.
  destruct (schema_has this "created"), (schema_has this "id");
    rewrite ?get_assign; reflexivity.
Qed.

Lemma get_created_item_created (rt : Runtime) (this : DynamoDBAdapter)
  (item : PutItemInput) (itemId : option string) (w : World) :
  get (created_item rt this item itemId w) "created"
  = get (stamp_created rt this item itemId w) "created".
Proof.
  unfold created_item.
  destruct (schema_has this "updated"); rewrite ?get_assign; reflexivity.
Qed.

Lemma get_created_item_updated (rt : Runtime) (this : DynamoDBAdapter)
  (item : PutItemInput) (itemId : option string) (w : World) :
  schema_has this "updated" = true ->
  let A := stamp_created rt this item itemId w in
  get (created_item rt this item itemId w) "updated"
  = if truthy (get A "created") then get A "created"
    else JStr (clock rt (if schema_has this "created"
                         then S (dates w) else dates w)).
Proof.
  intros U. unfold created_item. rewrite U, get_assign. reflexivity.
Qed.

Lemma get_created_item_id (rt : Runtime) (this : DynamoDBAdapter)
  (item : PutItemInput) (itemId : option string) (w : World) :
  schema_has this "id" = true ->
  get (created_item rt this item itemId w) "id"
  = JStr (create_id rt itemId w).
Proof.
  intros I. unfold created_item, stamp_created. rewrite I.
  destruct (schema_has this "updated"), (schema_has this "created");
    rewrite ?get_assign; cbn [String.eqb Ascii.eqb Bool.eqb];
    rewrite ?get_assign; reflexivity.
Qed.

Lemma get_create_respondData (this : DynamoDBAdapter) (Item : Obj Value) :
  (schema_has this "updated" = true ->
   get (create_respondData this Item) "updated" = get Item "updated")
  /\ (schema_has this "created" = true ->
      get (create_respondData this Item) "created" = get Item "created").
Proof.
  unfold create_respondData.
  destruct (schema_has this "id"), (schema_has this "updated"),
    (schema_has this "created"); split; intros H; try discriminate;
    rewrite ?get_assign; reflexivity.
Qed.

(** C9, as stated, fails: a [created] field supplied by the caller decides
    [updated] when the schema manages [updated] only.  The item
    [{created: '1999-12-31T00:00:00.000Z'}] is written, and answered, with
    [updated] equal to that value, although the clock reads 2020. *)
Lemma caller_created_determines_updated :
  let this := model acknowledging "T" (Some [("updated", JBool true)]) in
  let p := create sample_runtime this (item_only 0) None in
  let w := world_with [("created", JStr "1999-12-31T00:00:00.000Z")] in
  clock sample_runtime (dates w) = "2020-01-01T00:00:00.000Z"
  /\ outcome p w = Resolved [("updated", JStr "1999-12-31T00:00:00.000Z")]
  /\ heap (after p w) 0
     = [("created", JStr "1999-12-31T00:00:00.000Z");
        ("updated", JStr "1999-12-31T00:00:00.000Z")].
Proof. repeat split; reflexivity. Qed.

(** C9, amended. On a create with a schema managing [updated], the stamped
    [updated] equals the item's [created] field whenever that field is
    truthy at that point, whether this call has just stamped it or the
    caller supplied it, and is the current time otherwise; so with
    [created] managed too (the clock never reads the empty string), the
    item and the result have [created] equal to [updated]. *)
Theorem create_updated_follows_created
  (rt : Runtime) (this : DynamoDBAdapter)
  (item : PutItemInput) (itemId : option string) (w : World) :
  schema_has this "updated" = true ->
  clock rt (dates w) <> "" ->
  let p := create rt this item itemId in
  let A := heap w (put_Item item) in
  let A' := heap (after p w) (put_Item item) in
  (if schema_has this "created" then
     get A' "created" = JStr (clock rt (dates w))
     /\ get A' "updated" = get A' "created"
     /\ forall respondData,
          outcome p w = Resolved respondData ->
          get respondData "updated" = get respondData "created"
   else if truthy (get A "created") then
     get A' "updated" = get A "created"
   else
     get A' "updated" = JStr (clock rt (dates w))).
Proof.
  intros U Hc. cbv zeta.
  destruct (create_run rt this item itemId w) as (HA & _ & _ & Hout).
  rewrite HA.
  pose proof (get_created_item_updated rt this item itemId w U) as GU.
  pose proof (get_created_item_created rt this item itemId w) as GC.
  pose proof (get_stamp_created_created rt this item itemId w) as GS.
  cbv zeta in GU. rewrite GS in GU. rewrite GS in GC.
  destruct (schema_has this "created") eqn:C.
  - cbn [truthy] in GU.
    apply String.eqb_neq in Hc. rewrite Hc in GU. cbn [negb] in GU.
    split; [assumption|]. split; [congruence|].
    intros respondData R. rewrite Hout in R.
    destruct (doc_put _ _ _ _) as [e|u]; [discriminate|].
    injection R as <-.
    destruct (get_create_respondData this
                (created_item rt this item itemId w)) as [RU RC].
    rewrite RU, RC by assumption. congruence.
  - destruct (truthy (get (heap w (put_Item item)) "created")); assumption.
Qed.

(** C9 amended, with [created] and [updated] both managed. *)
Lemma create_updated_follows_created_witness :
  let this := model acknowledging "T"
                (Some [("created", JBool true); ("updated", JBool true)]) in
  let p := create sample_runtime this (item_only 0) None in
  let w := world_with [("name", JStr "Bob")] in
  get (heap (after p w) 0) "created" = JStr "2020-01-01T00:00:00.000Z"
  /\ get (heap (after p w) 0) "updated" = get (heap (after p w) 0) "created"
  /\ forall respondData,
       outcome p w = Resolved respondData ->
       get respondData "updated" = get respondData "created".
Proof.
  apply (create_updated_follows_created sample_runtime
           (model acknowledging "T"
              (Some [("created", JBool true); ("updated", JBool true)]))
           (item_only 0) None (world_with [("name", JStr "Bob")])).
  - reflexivity.
  - discriminate.
Defined.

(* ================================================================= *)
(** ** Mutation of the caller's objects *)

(** C10. [create] and [updateWithAttributes] work on the caller's own map,
    not on a copy.  After [create], whatever the store answered, the map
    behind the caller's reference holds the [id], [created] and [updated]
    the schema asks for, and it is that map the put request carried.
    After [updateWithAttributes] the caller's map holds the stamped
    [updated] (unless the key names it) and has lost every field named by
    the key whose value was truthy.  No other object is touched. *)
Theorem mutations_are_in_place (rt : Runtime) (this : DynamoDBAdapter) :
  (forall item itemId w,
     let p := create rt this item itemId in
     let A' := heap (after p w) (put_Item item) in
     A' = created_item rt this item itemId w
     /\ (schema_has this "id" = true ->
         get A' "id" = JStr (create_id rt itemId w))
     /\ (schema_has this "created" = true ->
         get A' "created" = JStr (clock rt (dates w)))
     /\ (schema_has this "updated" = true ->
         get A' "updated"
         = let A := stamp_created rt this item itemId w in
           if truthy (get A "created") then get A "created"
           else JStr (clock rt (if schema_has this "created"
                                then S (dates w) else dates w)))
     /\ network (after p w)
        = (network w ++ [ReqPut (extendParams item (tableName this)) A'])%list
     /\ forall r, r <> put_Item item -> heap (after p w) r = heap w r)
  /\ (forall originParams item w,
        let p := updateWithAttributes rt this originParams item in
        let keys := Object_keys (upd_Key originParams) in
        let A := stamp_updated rt this item w in
        let A' := heap (after p w) item in
        A' = exclude keys A
        /\ (schema_has this "updated" = true ->
            get A "updated" = JStr (clock rt (dates w)))
        /\ (forall f, In f (names A') <->
                      In f (names A)
                      /\ ~ (In f keys /\ truthy (get A f) = true))
        /\ (forall f, In f (names A') -> get A' f = get A f)
        /\ forall r, r <> item -> heap (after p w) r = heap w r).
Proof.
  split.
  - intros item itemId w. cbv zeta.
    destruct (create_run rt this item itemId w) as (HA & HF & Hnet & _).
    rewrite HA. repeat split; auto.
    + apply get_created_item_id.
    + intros C. rewrite get_created_item_created, get_stamp_created_created.
      now rewrite C.
    + apply get_created_item_updated.
  - intros originParams item w. cbv zeta.
    destruct (updateWithAttributes_run rt this originParams item w)
      as (HA & HF & _ & _).
    rewrite HA. unfold surviving.
    split; [reflexivity|]. split.
    { intros U. unfold stamp_updated. rewrite U, get_assign. reflexivity. }
    split; [intros f; apply In_names_exclude|].
    split; [|assumption].
    intros f I. apply In_names_exclude in I. destruct I as [I N].
    rewrite get_exclude.
    destruct (existsb (String.eqb f) (Object_keys (upd_Key originParams)))
      eqn:X; [|reflexivity].
    destruct (truthy (get (stamp_updated rt this item w) f)) eqn:T;
      [|reflexivity].
    exfalso. apply N. split; [|reflexivity].
    apply existsb_exists in X. destruct X as (k & Ik & E).
    apply String.eqb_eq in E. now subst k.
Qed.

(** C10, on a schema managing the three fields. *)
Lemma mutations_are_in_place_witness :
  let schema := Some [("id", JBool true); ("created", JBool true);
                      ("updated", JBool true)] in
  let this := model acknowledging "T" schema in
  heap (after (create sample_runtime this (item_only 0) None)
          (world_with [("name", JStr "Bob")])) 0
  = [("name", JStr "Bob");
     ("id", JStr "6c84fb90-12c4-11e1-840d-7b25c5ee7750");
     ("created", JStr "2020-01-01T00:00:00.000Z");
     ("updated", JStr "2020-01-01T00:00:00.000Z")]
  /\ heap (after (updateWithAttributes sample_runtime this
                    (key_only [("id", JStr "1")]) 0)
             (world_with [("id", JStr "1"); ("name", JStr "Bob")])) 0
     = [("name", JStr "Bob"); ("updated", JStr "2020-01-01T00:00:00.000Z")].
Proof.
  cbv zeta.
  destruct (mutations_are_in_place sample_runtime
              (model acknowledging "T"
                 (Some [("id", JBool true); ("created", JBool true);
                        ("updated", JBool true)]))) as [HC HU].
  split.
  - destruct (HC (item_only 0) None (world_with [("name", JStr "Bob")]))
      as (E & _).
    etransitivity; [exact E | reflexivity].
  - destruct (HU (key_only [("id", JStr "1")]) 0
                (world_with [("id", JStr "1"); ("name", JStr "Bob")]))
      as (E & _).
    etransitivity; [exact E | reflexivity].
Defined.

(* ================================================================= *)
(** ** Object spread *)

Section SpreadFacts.
Context {V : Type}.
Implicit Types (o a b : Obj V) (k : string).

Lemma lookup_In o k (v : V) : lookup o k = Some v -> In (k, v) o.
Proof.
  induction o as [|[k' v'] r IH]; simpl; [discriminate|].
  destruct (String.eqb_spec k' k) as [->|N].
  - intros H. injection H as ->. now left.
  - intros H. right. auto.
Qed.

Lemma lookup_app a b k :
  lookup (a ++ b)%list k
  = match lookup a k with Some v => Some v | None => lookup b k end.
Proof.
  induction a as [|[k' v'] r IH]; simpl; [reflexivity|].
  now destruct (k' =? k).
Qed.

Lemma assign_fresh o k (v : V) :
  lookup o k = None -> assign o k v = (o ++ [(k, v)])%list.
Proof.
  induction o as [|[k' v'] r IH]; simpl; [reflexivity|].
  destruct (k' =? k); [discriminate|].
  intros H. now rewrite IH.
Qed.

Lemma lookup_entries o (ks : list string) k :
  lookup (flat_map (fun k' => match lookup o k' with
                              | Some v => [(k', v)]
                              | None => []
                              end) ks) k
  = if existsb (String.eqb k) ks then lookup o k else None.
Proof.
  induction ks as [|a r IH]; simpl; [reflexivity|].
  rewrite lookup_app, IH.
  rewrite (String.eqb_sym k a).
  destruct (lookup o a) as [v|] eqn:E; simpl.
  - destruct (String.eqb_spec a k) as [->|N]; simpl; [now rewrite E|].
    reflexivity.
  - destruct (String.eqb_spec a k) as [->|N]; simpl; [|reflexivity].
    rewrite E. now destruct (existsb (String.eqb k) r).
Qed.

(** A copy made by spreading reads as the object it copies. *)
Lemma lookup_own_entries o k : lookup (own_entries o) k = lookup o k.
Proof.
  unfold own_entries. rewrite lookup_entries.
  destruct (existsb (String.eqb k) (Object_keys o)) eqn:E; [reflexivity|].
  symmetry. apply lookup_None_names. intros I.
  apply In_Object_keys in I.
  assert (existsb (String.eqb k) (Object_keys o) = true) as T.
  { apply existsb_exists. exists k. split; [assumption|].
    apply String.eqb_refl. }
  congruence.
Qed.

Lemma lookup_fold_assign b (l : Obj V) :
  (forall p, In p l -> lookup b (fst p) = Some (snd p)) ->
  forall o k,
    lookup (fold_left (fun o p => assign o (fst p) (snd p)) l o) k
    = match lookup l k with Some v => Some v | None => lookup o k end.
Proof.
  induction l as [|[k' v'] r IH]; intros H o k; simpl; [reflexivity|].
  rewrite IH by (intros p I; apply H; now right).
  destruct (String.eqb_spec k' k) as [->|N].
  - destruct (lookup r k) as [v|] eqn:E.
    + apply lookup_In in E.
      pose proof (H (k, v) (or_intror E)) as H1.
      pose proof (H (k, v') (or_introl eq_refl)) as H2.
      simpl in H1, H2. congruence.
    + apply lookup_assign_same.
  - destruct (lookup r k); [reflexivity|].
    now apply lookup_assign_other.
Qed.

(** [{...a, ...b}] reads as [b] where [b] has the property, as [a]
    elsewhere. *)
Lemma lookup_spread a b k :
  lookup (spread a b) k
  = match lookup b k with Some v => Some v | None => lookup a k end.
Proof.
  unfold spread.
  rewrite (lookup_fold_assign b).
  - now rewrite !lookup_own_entries.
  - intros [k' v'] I. simpl.
    unfold own_entries in I. apply in_flat_map in I.
    destruct I as (k0 & I0 & I1).
    destruct (lookup b k0) as [v0|] eqn:E; [|destruct I1].
    destruct I1 as [I1|[]]. injection I1 as <- <-. exact E.
Qed.
End SpreadFacts.

(* ================================================================= *)
(** ** More on the two loops *)

Lemma filter_filter {A} (f g : A -> bool) (l : list A) :
  filter f (filter g l) = filter (fun x => g x && f x) l.
Proof.
  induction l as [|x r IH]; simpl; [reflexivity|].
  destruct (g x); simpl; [|assumption].
  destruct (f x); now rewrite IH.
Qed.

(** The key-exclusion loop is one filter of the map: what it keeps stays
    in place, with its value. *)
Lemma exclude_is_filter (keys : list string) :
  forall o, exclude keys o = filter (kept keys o) o.
Proof.
  unfold exclude.
  induction keys as [|k r IH]; intros o; cbn [fold_left].
  - symmetry. apply forallb_filter_id. apply forallb_forall.
    intros p _. reflexivity.
  - rewrite IH. unfold exclude_field.
    destruct (truthy (get o k)) eqn:T.
    + unfold delete at 2. rewrite filter_filter. apply filter_ext.
      intros p. unfold kept. cbn [existsb].
      rewrite get_delete.
      destruct (String.eqb_spec (fst p) k) as [->|N]; simpl.
      * now rewrite T.
      * reflexivity.
    + apply filter_ext. intros p. unfold kept. cbn [existsb].
      destruct (String.eqb_spec (fst p) k) as [->|N]; simpl.
      * rewrite T. now rewrite !andb_false_r.
      * reflexivity.
Qed.

Lemma numbered_cons (i0 : nat) (k : string) (r : list string) :
  numbered i0 (k :: r) = (i0 + 1, k) :: numbered (i0 + 1) r.
Proof.
  unfold numbered. simpl.
  replace (i0 + 1 + 1) with (S (i0 + 1)) by lia. reflexivity.
Qed.

Section LoopMaps.
Variable item : Obj Value.

(** A placeholder that is none of the loop's own keeps what the caller
    put under it. *)
Lemma compile_from_names_other (ks : list string) :
  forall (c : Compiler) (n0 : Obj string),
    names_ c = Some n0 ->
    exists n',
      names_ (compile_from item c ks) = Some n'
      /\ forall ph,
           (forall j, j < length ks ->
              ph <> "#param" ++ decimal (i c + j + 1)) ->
           lookup n' ph = lookup n0 ph.
Proof.
  induction ks as [|k r IH]; intros c n0 Hn.
  - exists n0. auto.
  - destruct (compile_field_names item c k) as (Hi & Hn1).
    unfold compile_from in *. cbn [fold_left].
    set (c1 := compile_field item c k) in *.
    rewrite Hn in Hn1.
    destruct (IH c1 _ Hn1) as (n' & E & P).
    exists n'. split; [assumption|].
    intros ph H. rewrite P.
    + apply lookup_assign_other. intros X. apply (H 0).
      * simpl. lia.
      * rewrite Nat.add_0_r. now symmetry.
    + intros j Hj. rewrite Hi.
      replace (i c + 1 + j + 1) with (i c + S j + 1) by lia.
      apply H. simpl. lia.
Qed.

(** Over a name map without [#param] placeholders beyond the counter, the
    loop appends one entry per field, in order. *)
Lemma compile_from_names_exact (ks : list string) :
  forall (c : Compiler) (v0 : Obj Value) (n0 : Obj string),
    values_ c = Some v0 ->
    names_ c = Some n0 ->
    (forall m, i c < m -> lookup n0 ("#param" ++ decimal m) = None) ->
    names_ (compile_from item c ks) = Some (n0 ++ names_of (i c) ks)%list.
Proof.
  induction ks as [|k r IH]; intros c v0 n0 Hv Hn Hf.
  - unfold names_of, numbered. simpl. now rewrite app_nil_r.
  - destruct (compile_field_step item c k v0 Hv) as (Hi & Hn1 & Hstep).
    unfold compile_from in *. cbn [fold_left].
    set (c1 := compile_field item c k) in *.
    rewrite Hn in Hn1. rewrite assign_fresh in Hn1 by (apply Hf; lia).
    assert (exists v1, values_ c1 = Some v1) as [v1 Hv1].
    { destruct (strict_neq_empty (get item k)); eexists; apply Hstep. }
    rewrite (IH c1 v1 _ Hv1 Hn1).
    + rewrite Hi. unfold names_of. rewrite numbered_cons.
      cbn [map fst snd]. now rewrite <- app_assoc.
    + intros m Hm. rewrite Hi in Hm. rewrite lookup_app, Hf by lia.
      cbn [lookup].
      destruct (String.eqb_spec ("#param" ++ decimal (i c + 1))
                  ("#param" ++ decimal m)) as [E|N]; [|reflexivity].
      apply param_inj in E. lia.
Qed.

Lemma values_of_cons (i0 : nat) (k : string) (r : list string) :
  values_of item i0 (k :: r)
  = if strict_neq_empty (get item k)
    then (":val" ++ decimal (i0 + 1), get item k) :: values_of item (i0 + 1) r
    else values_of item (i0 + 1) r.
Proof.
  unfold values_of. rewrite numbered_cons. cbn [filter fst snd].
  now destruct (strict_neq_empty (get item k)).
Qed.

(** Likewise for the value map: one entry per field that is set. *)
Lemma compile_from_values_exact (ks : list string) :
  forall (c : Compiler) (v0 : Obj Value),
    values_ c = Some v0 ->
    (forall m, i c < m -> lookup v0 (":val" ++ decimal m) = None) ->
    values_ (compile_from item c ks)
    = Some (v0 ++ values_of item (i c) ks)%list.
Proof.
  induction ks as [|k r IH]; intros c v0 Hv Hf.
  - unfold values_of, numbered. simpl. now rewrite app_nil_r.
  - destruct (compile_field_step item c k v0 Hv) as (Hi & _ & Hstep).
    unfold compile_from in *. cbn [fold_left].
    set (c1 := compile_field item c k) in *.
    rewrite values_of_cons.
    destruct (strict_neq_empty (get item k)).
    + destruct Hstep as (_ & _ & _ & _ & Hv1).
      rewrite assign_fresh in Hv1 by (apply Hf; lia).
      rewrite (IH c1 _ Hv1).
      * rewrite Hi. now rewrite <- app_assoc.
      * intros m Hm. rewrite Hi in Hm. rewrite lookup_app, Hf by lia.
        cbn [lookup].
        destruct (String.eqb_spec (":val" ++ decimal (i c + 1))
                    (":val" ++ decimal m)) as [E|N]; [|reflexivity].
        apply val_inj in E. lia.
    + destruct Hstep as (_ & _ & _ & _ & Hv1).
      rewrite (IH c1 _ Hv1).
      * now rewrite Hi.
      * intros m Hm. apply Hf. lia.
Qed.

(** The indices of the two clauses are the numbers [i0+1 .. i0+n]. *)
Lemma indices_cover (ks : list string) (i0 m : nat) :
  In m (set_indices item i0 ks) \/ In m (remove_indices item i0 ks)
  <-> i0 < m <= i0 + length ks.
Proof.
  rewrite In_set_indices, In_remove_indices. split.
  - intros [(j & k & H & -> & _)|(j & k & H & -> & _)];
      apply nth_error_Some_lt in H || (assert (j < length ks)
        by (apply nth_error_Some; congruence)); lia.
  - intros [H1 H2].
    destruct (nth_error ks (m - i0 - 1)) as [k|] eqn:E.
    + destruct (strict_neq_empty (get item k)) eqn:T;
        [left | right]; exists (m - i0 - 1), k; repeat split; auto; lia.
    + apply nth_error_None in E. lia.
Qed.
End LoopMaps.

(* ================================================================= *)
(** ** Further properties of [findOne] *)

(** X1. [findOne] settles as the store answers its one get request: with
    the stored item when there is one, and with the store's own error,
    unmapped whatever its name, when the store rejects the request.  It
    leaves the caller's objects, the clock and the uuid generator alone. *)
Theorem findOne_returns_item_or_raw_error
  (this : DynamoDBAdapter) (key : Obj Value)
  (originParams : option GetItemInput) (w : World) :
  let p := findOne this key originParams in
  let params := get_request this key originParams in
  (forall Item,
     doc_get (doc this) (network w) params = inr (mkGetItemOutput (Some Item)) ->
     outcome p w = Resolved Item)
  /\ (forall e,
        doc_get (doc this) (network w) params = inl e ->
        outcome p w = Rejected (ThrownAWS e)
        /\ kind_of (ThrownAWS e) = None)
  /\ network (after p w) = (network w ++ [ReqGet params])%list
  /\ heap (after p w) = heap w
  /\ dates (after p w) = dates w
  /\ uuids (after p w) = uuids w.
Proof.
  cbv zeta. unfold outcome, after. rewrite findOne_eq. cbv zeta.
  cbn [fst snd send heap dates uuids network].
  split; [intros Item H; now rewrite H|].
  split; [intros e H; now rewrite H|].
  repeat split.
Qed.

(** X1, on a store holding one item and on a throttling store. *)
Lemma findOne_returns_item_or_raw_error_witness :
  let Item := [("id", JStr "1"); ("name", JStr "Bob")] in
  let holding :=
    mkDocumentClient (fun _ _ => inr (mkGetItemOutput (Some Item)))
                     (fun _ _ _ => inr tt) (fun _ _ => inr tt) in
  let e := mkAWSError "NotFound" (Some "raw") in
  outcome (findOne (model holding "T" None) [("id", JStr "1")] None)
    (world_with [])
  = Resolved Item
  /\ outcome (findOne (model (rejecting e) "T" None) [("id", JStr "1")] None)
       (world_with [])
     = Rejected (ThrownAWS e).
Proof.
  cbv zeta. split.
  - apply (findOne_returns_item_or_raw_error
             (model (mkDocumentClient
                       (fun _ _ => inr (mkGetItemOutput
                          (Some [("id", JStr "1"); ("name", JStr "Bob")])))
                       (fun _ _ _ => inr tt) (fun _ _ => inr tt)) "T" None)
             [("id", JStr "1")] None (world_with [])).
    reflexivity.
  - apply (findOne_returns_item_or_raw_error
             (model (rejecting (mkAWSError "NotFound" (Some "raw"))) "T" None)
             [("id", JStr "1")] None (world_with [])).
    reflexivity.
Defined.

(** X2. The get request always carries the key argument, the adapter's
    table name and [ReturnConsumedCapacity: 'INDEXES']: a [Key] or a
    [TableName] in the caller's parameters is overridden, while the
    caller's [ProjectionExpression], [ExpressionAttributeNames] and
    [ConsistentRead] go out as they came. *)
Theorem findOne_request_shape
  (this : DynamoDBAdapter) (key : Obj Value)
  (originParams : option GetItemInput) :
  let params := get_request this key originParams in
  get_Key params = key
  /\ get_TableName params = tableName this
  /\ get_ReturnConsumedCapacity params = Some "INDEXES"
  /\ match originParams with
     | Some q =>
         get_ProjectionExpression params = get_ProjectionExpression q
         /\ get_ExpressionAttributeNames params
            = get_ExpressionAttributeNames q
         /\ get_ConsistentRead params = get_ConsistentRead q
     | None =>
         get_ProjectionExpression params = None
         /\ get_ExpressionAttributeNames params = None
         /\ get_ConsistentRead params = None
     end.
Proof.
  cbv zeta. unfold get_request.
  destruct originParams as [q|]; [|repeat split].
  destruct (get_ProjectionExpression q) as [e|] eqn:E.
  - destruct (negb (e =? "")); cbn; rewrite ?E; repeat split.
  - cbn. rewrite ?E. repeat split.
Qed.

(* ================================================================= *)
(** ** Further properties of [updateWithAttributes] *)

(** X3. [updateWithAttributes] fails exactly when the store rejects the
    update, and then with the Boom error that [handleError] chooses from
    the error's name alone: NotFound for ['NotFound'], Conflict for
    ['ConditionalCheckFailedException'], Internal for every other name.
    The store's message is not passed on. *)
Theorem updateWithAttributes_maps_store_errors
  (rt : Runtime) (this : DynamoDBAdapter)
  (originParams : UpdateItemInput) (item : Ref) (w : World) (t : Thrown) :
  let p := updateWithAttributes rt this originParams item in
  let params := update_request rt this originParams item w in
  outcome p w = Rejected t
  <-> exists e,
        doc_update (doc this) (network w) params = inl e
        /\ t = ThrownBoom (handleError e)
        /\ kind_of t
           = Some (if err_name e =? "NotFound" then NotFound
                   else if err_name e =? "ConditionalCheckFailedException"
                        then Conflict
                        else Internal).
Proof.
  cbv zeta.
  destruct (updateWithAttributes_run rt this originParams item w)
    as (_ & _ & _ & Hout).
  rewrite Hout.
  destruct (doc_update (doc this) (network w) _) as [e|u].
  - split.
    + intros H. injection H as <-. exists e. repeat split.
      unfold handleError.
      destruct (err_name e =? "NotFound"); [reflexivity|].
      destruct (err_name e =? "ConditionalCheckFailedException");
        reflexivity.
    + intros (e' & H & -> & _). now injection H as ->.
  - split; [discriminate|]. intros (e' & H & _). discriminate.
Qed.

(** X3, on a store that is being throttled. *)
Lemma updateWithAttributes_maps_store_errors_witness :
  let e := mkAWSError "ProvisionedThroughputExceededException"
             (Some "Rate exceeded") in
  outcome (updateWithAttributes sample_runtime (model (rejecting e) "T" None)
             (key_only [("id", JStr "1")]) 0)
    (world_with [("name", JStr "Bob")])
  = Rejected (ThrownBoom
                (Boom_badImplementation
                   "Something went wrong with DB server.")).
Proof.
  cbv zeta.
  apply (updateWithAttributes_maps_store_errors sample_runtime
           (model (rejecting
                     (mkAWSError "ProvisionedThroughputExceededException"
                        (Some "Rate exceeded"))) "T" None)
           (key_only [("id", JStr "1")]) 0
           (world_with [("name", JStr "Bob")])).
  exists (mkAWSError "ProvisionedThroughputExceededException"
            (Some "Rate exceeded")).
  repeat split.
Defined.

(** X4. Unless the caller's parameters hold [undefined] under
    [ExpressionAttributeNames] or [ExpressionAttributeValues], no
    placeholder of the compiled expression is orphaned.  The indices of
    the SET and REMOVE clauses are exactly [1..n] for the [n] surviving
    fields, no index is in both clauses, every index has its [#param]
    entry in the name map, naming a surviving field, and every index of
    the SET clause has its [:val] entry in the value map. *)
Theorem no_orphaned_placeholders
  (rt : Runtime) (this : DynamoDBAdapter)
  (originParams : UpdateItemInput) (item : Ref) (w : World) :
  names_usable originParams = true ->
  values_usable originParams = true ->
  let A := surviving rt this originParams item w in
  let ks := Object_keys A in
  let S := set_indices A 0 ks in
  let R := remove_indices A 0 ks in
  let params := update_request rt this originParams item w in
  upd_UpdateExpression params
  = Holds (base_expression originParams
           ++ (" " ++ set_clause S) ++ (" " ++ remove_clause R))
  /\ (forall m, In m S \/ In m R <-> 1 <= m <= length ks)
  /\ (forall m, In m S -> ~ In m R)
  /\ exists names,
       upd_ExpressionAttributeNames params = Holds names
       /\ (forall m, In m S \/ In m R ->
             exists f, lookup names ("#param" ++ decimal m) = Some f
                       /\ In f ks)
       /\ (forall m, In m S ->
             exists values v,
               upd_ExpressionAttributeValues params = Holds values
               /\ lookup values (":val" ++ decimal m) = Some v).
Proof.
  intros UN UV. cbv zeta.
  set (A := surviving rt this originParams item w).
  split.
  { pose proof (update_request_expression rt this originParams item w) as X.
    cbv zeta in X. unfold set_placed, remove_placed in X.
    now rewrite UV in X. }
  split.
  { intros m. rewrite indices_cover. lia. }
  split.
  { intros m HS HR.
    apply In_set_indices in HS. destruct HS as (j & f & H1 & -> & T).
    pose proof (field_in_one_clause A _ j f H1) as C.
    rewrite T in C. replace (0 + j + 1) with (j + 1) in HR by lia. tauto. }
  pose proof (update_request_names rt this originParams item w) as N.
  cbv zeta in N. rewrite UN in N. destruct N as (names & Hn & P & _).
  fold A in P. exists names. split; [assumption|]. split.
  - intros m H. apply indices_cover in H.
    destruct (nth_error (Object_keys A) (m - 1)) as [f|] eqn:E.
    + exists f. split; [|now apply nth_error_In in E].
      replace m with (m - 1 + 1) at 1 by lia. now apply P.
    + apply nth_error_None in E. lia.
  - intros m HS.
    pose proof (update_request_values rt this originParams item w) as V.
    cbv zeta in V. fold A in V. unfold set_placed in V. rewrite UV in V.
    apply In_set_indices in HS. destruct HS as (j & f & H1 & -> & T).
    destruct (set_indices A 0 (Object_keys A)) as [|x l] eqn:E.
    + assert (In (j + 1) (set_indices A 0 (Object_keys A))) as I.
      { apply In_set_indices. exists j, f. auto. }
      rewrite E in I. destruct I.
    + destruct V as (values & Hv & Q).
      exists values, (get A f). split; [assumption|].
      replace (0 + j + 1) with (j + 1) by lia. now apply Q.
Qed.

(** X4, at attributes [{name: 'Bob', note: ''}]. *)
Lemma no_orphaned_placeholders_witness :
  let params :=
    update_request sample_runtime (model acknowledging "T" None)
      (key_only [("id", JStr "1")]) 0
      (world_with [("name", JStr "Bob"); ("note", JStr "")]) in
  upd_UpdateExpression params = Holds " SET #param1 = :val1 REMOVE #param2"
  /\ exists names,
       upd_ExpressionAttributeNames params = Holds names
       /\ (exists f, lookup names "#param2" = Some f)
       /\ exists values v,
            upd_ExpressionAttributeValues params = Holds values
            /\ lookup values ":val1" = Some v.
Proof.
  cbv zeta.
  destruct (no_orphaned_placeholders sample_runtime
              (model acknowledging "T" None) (key_only [("id", JStr "1")]) 0
              (world_with [("name", JStr "Bob"); ("note", JStr "")])
              eq_refl eq_refl)
    as (He & _ & _ & names & Hn & P & Q).
  split; [exact He|].
  exists names. split; [exact Hn|]. split.
  - destruct (P 2) as (f & L & _); [right; simpl; now left|].
    exists f. exact L.
  - apply (Q 1). simpl. now left.
Defined.

(** X5. What the caller put in [ExpressionAttributeNames] stays under
    every placeholder that is not one of the loop's [#param1 .. #paramN];
    under those, the loop's field name replaces the caller's entry.  (A
    name map goes out unless the caller's property holds [undefined].) *)
Theorem caller_names_kept_unless_colliding
  (rt : Runtime) (this : DynamoDBAdapter)
  (originParams : UpdateItemInput) (item : Ref) (w : World) :
  let ks := Object_keys (surviving rt this originParams item w) in
  let params := update_request rt this originParams item w in
  (names_usable originParams = true ->
   exists names, upd_ExpressionAttributeNames params = Holds names)
  /\ forall names,
       upd_ExpressionAttributeNames params = Holds names ->
       (forall ph,
          (forall m, 1 <= m <= length ks -> ph <> "#param" ++ decimal m) ->
          lookup names ph = lookup (base_names originParams) ph)
       /\ (forall m f,
             1 <= m <= length ks ->
             nth_error ks (m - 1) = Some f ->
             lookup names ("#param" ++ decimal m) = Some f).
Proof.
  cbv zeta. split; [apply update_request_names_usable|].
  intros names. unfold update_request.
  set (A := surviving rt this originParams item w).
  unfold finish. cbn [upd_ExpressionAttributeNames].
  unfold compile. rewrite params0_names.
  set (v0 := to_option _).
  destruct (names_usable originParams) eqn:U.
  - set (c0 := mkCompiler 0 0 0 " " " " (Some (base_names originParams)) v0).
    destruct (compile_from_names_other A (Object_keys A) c0
                (base_names originParams))
      as (names1 & Hn & P); try reflexivity.
    destruct (compile_from_names A (Object_keys A) c0
                (base_names originParams))
      as (names' & Hn' & P1 & _); try reflexivity.
    rewrite Hn in Hn'. injection Hn' as <-.
    rewrite Hn. intros E. injection E as <-. split.
    + intros ph H. apply P. intros j Hj. change (i c0) with 0.
      apply H. lia.
    + intros m f Hm H. change (i c0) with 0 in P1.
      replace m with (0 + (m - 1) + 1) at 1 by lia. now apply P1.
  - rewrite compile_from_names_none by reflexivity.
    unfold names_usable in U. unfold extendParams, spread_defaults. cbn.
    destruct (upd_ExpressionAttributeNames originParams); discriminate.
Qed.

(** X5, with a caller's names [{#n: 'name', #param1: 'mine'}]. *)
Lemma caller_names_kept_unless_colliding_witness :
  let originParams :=
    mkUpdateItemInput "" [("id", JStr "1")] Absent
      (Holds [("#n", "name"); ("#param1", "mine")]) Absent
      (Some "attribute_exists(#n)") None in
  exists names,
    upd_ExpressionAttributeNames
      (update_request sample_runtime (model acknowledging "T" None)
         originParams 0 (world_with [("age", JNum 7)]))
    = Holds names
    /\ lookup names "#n" = Some "name"
    /\ lookup names "#param1" = Some "age".
Proof.
  cbv zeta.
  destruct (caller_names_kept_unless_colliding sample_runtime
              (model acknowledging "T" None)
              (mkUpdateItemInput "" [("id", JStr "1")] Absent
                 (Holds [("#n", "name"); ("#param1", "mine")]) Absent
                 (Some "attribute_exists(#n)") None)
              0 (world_with [("age", JNum 7)]))
    as (E & H).
  destruct (E eq_refl) as (names & Hn).
  destruct (H names Hn) as (Q & P).
  exists names. split; [exact Hn|]. split.
  - rewrite (Q "#n"); [reflexivity|]. intros m _. discriminate.
  - exact (P 1 "age" (conj (le_n 1) (le_n 1)) eq_refl).
Defined.



(** X7. Key exclusion only takes fields away: the caller's map after the
    call is the map it had when the loop started, filtered, so the fields
    that survive keep their values and their relative order, which is the
    order the placeholders are numbered in. *)
Theorem exclusion_keeps_order
  (rt : Runtime) (this : DynamoDBAdapter)
  (originParams : UpdateItemInput) (item : Ref) (w : World) :
  let p := updateWithAttributes rt this originParams item in
  let A := stamp_updated rt this item w in
  heap (after p w) item
  = filter (kept (Object_keys (upd_Key originParams)) A) A.
Proof.
  cbv zeta.
  destruct (updateWithAttributes_run rt this originParams item w)
    as (HA & _).
  rewrite HA. unfold surviving. apply exclude_is_filter.
Qed.

(* ================================================================= *)
(** ** The second revision *)

Lemma Revision2_updateWithAttributes_eq
  (rt : Runtime) (this : DynamoDBAdapter)
  (key : Obj Value) (item : Ref) (originParams : UpdateItemInput) :
  Revision2.updateWithAttributes rt this key item originParams
  = updateWithAttributes rt this (key_first key originParams) item.
Proof. reflexivity. Qed.

(** X8. In the key-first revision nothing of the caller's expression or
    maps reaches the store: the request is the key, the compiled clauses
    alone, a name map with exactly one [#param] entry per surviving field
    in order, a value map with exactly one [:val] entry per field that is
    set (no map when none is), the caller's condition, and the adapter's
    table name and capacity flag. *)
Theorem Revision2_request_is_compiled_alone
  (rt : Runtime) (this : DynamoDBAdapter)
  (key : Obj Value) (item : Ref) (originParams : UpdateItemInput) (w : World) :
  let p := Revision2.updateWithAttributes rt this key item originParams in
  let A := heap (after p w) item in
  let ks := Object_keys A in
  let S := set_indices A 0 ks in
  let R := remove_indices A 0 ks in
  let params :=
    mkUpdateItemInput (tableName this) key
      (Holds ((" " ++ set_clause S) ++ (" " ++ remove_clause R)))
      (Holds (names_of 0 ks))
      (match S with
       | [] => Absent
       | _ :: _ => Holds (values_of A 0 ks)
       end)
      (upd_ConditionExpression originParams)
      (Some "INDEXES") in
  network (after p w) = (network w ++ [ReqUpdate params])%list.
Proof.
  cbv zeta. rewrite Revision2_updateWithAttributes_eq.
  destruct (updateWithAttributes_run rt this (key_first key originParams)
              item w) as (HA & _ & Hnet & _).
  rewrite HA, Hnet. do 3 f_equal.
  unfold update_request.
  set (A := surviving rt this (key_first key originParams) item w).
  set (c0 := mkCompiler 0 0 0 " " " " (Some []) (Some [])).
  assert (compile A (extendParams (spread_defaults (key_first key originParams))
                       (tableName this))
          = compile_from A c0 (Object_keys A)) as -> by reflexivity.
  destruct (compile_from_clauses A (Object_keys A) c0 [] [] [])
    as (_ & Hs & Hsa & _ & Hra); try reflexivity.
  pose proof (compile_from_names_exact A (Object_keys A) c0 [] []
                eq_refl eq_refl (fun m _ => eq_refl)) as Hn.
  pose proof (compile_from_values_exact A (Object_keys A) c0 []
                eq_refl (fun m _ => eq_refl)) as Hv.
  change (i c0) with 0 in *. cbn [app] in *.
  unfold finish. rewrite Hs, Hsa, Hra, Hn, Hv.
  destruct (set_indices A 0 (Object_keys A)); reflexivity.
Qed.

(* ================================================================= *)
(** ** Further properties of [create] *)

Lemma create_respondData_names (this : DynamoDBAdapter) (Item : Obj Value) :
  names (create_respondData this Item)
  = filter (schema_has this) ["id"; "updated"; "created"]
  /\ forall f, In f (names (create_respondData this Item)) ->
       get (create_respondData this Item) f = get Item f.
Proof.
  unfold create_respondData. cbn [filter].
  destruct (schema_has this "id"), (schema_has this "updated"),
    (schema_has this "created"); cbn; (split; [reflexivity|]);
    intros f I;
    repeat match goal with
      | H : _ \/ _ |- _ => destruct H as [<-|H]
      | H : False |- _ => destruct H
      end; reflexivity.
Qed.

(** X9. [create] sends one put carrying the caller's item as stamped, the
    caller's condition and placeholder maps untouched, and the adapter's
    table name and capacity flag.  When the store acknowledges, the result
    holds exactly the fields the schema manages, in the order [id],
    [updated], [created], with the values written; when the store
    rejects, the call fails with the store's own error, whatever it is. *)
Theorem create_sends_item_and_returns_managed_fields
  (rt : Runtime) (this : DynamoDBAdapter)
  (item : PutItemInput) (itemId : option string) (w : World) :
  let p := create rt this item itemId in
  let A' := heap (after p w) (put_Item item) in
  let params :=
    mkPutItemInput (tableName this) (put_Item item)
      (put_ConditionExpression item) (put_ExpressionAttributeNames item)
      (put_ExpressionAttributeValues item) (Some "INDEXES") in
  network (after p w) = (network w ++ [ReqPut params A'])%list
  /\ (forall respondData,
        outcome p w = Resolved respondData ->
        names respondData
        = filter (schema_has this) ["id"; "updated"; "created"]
        /\ forall f, In f (names respondData) ->
             get respondData f = get A' f)
  /\ (forall t,
        outcome p w = Rejected t
        <-> exists e, doc_put (doc this) (network w) params A' = inl e
                      /\ t = ThrownAWS e).
Proof.
  cbv zeta.
  destruct (create_run rt this item itemId w) as (HA & _ & Hnet & Hout).
  rewrite HA.
  change (extendParams item (tableName this))
    with (mkPutItemInput (tableName this) (put_Item item)
            (put_ConditionExpression item) (put_ExpressionAttributeNames item)
            (put_ExpressionAttributeValues item) (Some "INDEXES"))
    in Hnet, Hout.
  split; [assumption|]. rewrite Hout.
  destruct (doc_put _ _ _ _) as [e|u]; split.
  - discriminate.
  - intros t. split.
    + intros H. injection H as <-. exists e. auto.
    + intros (e' & H & ->). now injection H as ->.
  - intros respondData H. injection H as <-.
    apply create_respondData_names.
  - intros t. split; [discriminate|]. intros (e' & H & _). discriminate.
Qed.

(** X9, on a schema managing [id] and [updated]. *)
Lemma create_sends_item_and_returns_managed_fields_witness :
  let this := model acknowledging "T"
                (Some [("id", JBool true); ("updated", JBool true)]) in
  let p := create sample_runtime this (item_only 0) (Some "42") in
  let w := world_with [("name", JStr "Bob")] in
  network (after p w)
  = [ReqPut (mkPutItemInput "T" 0 None None None (Some "INDEXES"))
       (heap (after p w) 0)]
  /\ forall respondData,
       outcome p w = Resolved respondData ->
       names respondData = ["id"; "updated"].
Proof.
  cbv zeta.
  destruct (create_sends_item_and_returns_managed_fields sample_runtime
              (model acknowledging "T"
                 (Some [("id", JBool true); ("updated", JBool true)]))
              (item_only 0) (Some "42") (world_with [("name", JStr "Bob")]))
    as (Hnet & R & _).
  split; [exact Hnet|].
  intros respondData H. exact (proj1 (R respondData H)).
Defined.

(** X10. [create] asks the uuid generator exactly when no non-empty
    [itemId] is given, and then once, whether or not the schema manages
    [id]; it reads the clock once for a managed [created], and once for a
    managed [updated] only when the item has no truthy [created] by then. *)
Theorem create_draws_uuid_and_time_when_needed
  (rt : Runtime) (this : DynamoDBAdapter)
  (item : PutItemInput) (itemId : option string) (w : World) :
  let p := create rt this item itemId in
  uuids (after p w)
  = uuids w + match itemId with
              | Some s => if negb (s =? "") then 0 else 1
              | None => 1
              end
  /\ dates (after p w)
     = dates w
       + (if schema_has this "created" then 1 else 0)
       + (if schema_has this "updated"
             && negb (truthy (get (stamp_created rt this item itemId w)
                                "created"))
          then 1 else 0).
Proof.
  cbv zeta. unfold after, create, stamp_created, create_id.
  assert (forall (h : Ref -> Obj Value) r o, write h r o r = o) as Same.
  { intros h r o. unfold write. now rewrite Nat.eqb_refl. }
  destruct (schema_has this "id"), (schema_has this "created"),
    (schema_has this "updated"), itemId as [s|];
    try destruct (negb (s =? ""));
    unfold bind, try_catch, ret, throw, uuidV1, new_Date_toISOString,
      heap_assign, deref, await_put, send, settle;
    cbn [heap dates uuids network put_Item andb];
    rewrite ?Same;
    repeat match goal with
      | |- context [truthy ?v] => destruct (truthy v)
      end;
    cbn [heap dates uuids network put_Item negb];
    match goal with
    | |- context [doc_put ?d ?n ?q ?o] => destruct (doc_put d n q o) as [e|[]]
    | |- _ => idtac
    end;
    cbn [snd heap dates uuids network]; split; lia.
Qed.

(* ================================================================= *)
(** ** [update], first revision *)

(** X11. In the first revision, with a schema managing [updated], [update]
    cannot replace an item that has no attribute named [Item] holding an
    object: the write to [item.Item.Item.updated] throws a [TypeError]
    before any request is made, and the caller's item is left as it was. *)
Theorem update_throws_on_plain_item
  (rt : Runtime) (this : DynamoDBAdapter) (item : PutItemInput) (w : World) :
  schema_has this "updated" = true ->
  is_object (get (heap w (put_Item item)) "Item") = false ->
  let r := update rt this item w in
  fst r = ThrewTypeError
  /\ network (snd r) = network w
  /\ heap (snd r) = heap w.
Proof.
  intros U H. cbv zeta. unfold update, assign_nested_updated. rewrite U.
  destruct (get (heap w (put_Item item)) "Item"); try discriminate;
    repeat split.
Qed.

(** X11, on the item [{id: '1', name: 'Bob'}]. *)
Lemma update_throws_on_plain_item_witness :
  let this := model acknowledging "T" (Some [("updated", JBool true)]) in
  let r := update sample_runtime this (item_only 0)
             (world_with [("id", JStr "1"); ("name", JStr "Bob")]) in
  fst r = ThrewTypeError /\ network (snd r) = [].
Proof.
  cbv zeta.
  destruct (update_throws_on_plain_item sample_runtime
              (model acknowledging "T" (Some [("updated", JBool true)]))
              (item_only 0)
              (world_with [("id", JStr "1"); ("name", JStr "Bob")])
              eq_refl eq_refl) as (H1 & H2 & _).
  split; [exact H1 | exact H2].
Defined.

(** X12. In the first revision [update] never stamps the item's own
    [updated]: when the call gets past the nested write, the item's
    [updated] is what the caller put there, in the caller's map and in the
    record sent, and an acknowledged call returns that value, not the
    clock's; a rejection is mapped by [handleError]. *)
Theorem update_returns_the_callers_updated
  (rt : Runtime) (this : DynamoDBAdapter) (item : PutItemInput) (w : World) :
  schema_has this "updated" = true ->
  is_object (get (heap w (put_Item item)) "Item") = true ->
  let r := update rt this item w in
  let A := heap w (put_Item item) in
  let params := extendParams item (tableName this) in
  exists Item',
    assign_nested_updated A (clock rt (dates w)) = Some Item'
    /\ heap (snd r) (put_Item item) = Item'
    /\ get Item' "updated" = get A "updated"
    /\ network (snd r) = (network w ++ [ReqPut params Item'])%list
    /\ fst r
       = match doc_put (doc this) (network w) params Item' with
         | inr _ => Returned [("updated", get A "updated")]
         | inl e => Threw (ThrownBoom (handleError e))
         end.
Proof.
  intros U H. cbv zeta. unfold update, assign_nested_updated. rewrite U.
  assert (forall (h : Ref -> Obj Value) r o, write h r o r = o) as Same.
  { intros h r o. unfold write. now rewrite Nat.eqb_refl. }
  destruct (get (heap w (put_Item item)) "Item") eqn:E; try discriminate;
    eexists; (split; [reflexivity|]);
    unfold try_catch, bind, ret, throw_handled, throw, deref, await_put,
      send, settle;
    cbn [heap dates uuids network];
    change (put_Item (extendParams item (tableName this)))
      with (put_Item item);
    rewrite ?Same;
    rewrite ?get_assign; cbn [String.eqb Ascii.eqb Bool.eqb];
    destruct (doc_put _ _ _ _) as [e|[]];
    cbn [fst snd heap network]; rewrite ?Same; repeat split.
Qed.

(** X12, on an item with a nested [Item] and a stale [updated]. *)
Lemma update_returns_the_callers_updated_witness :
  let this := model acknowledging "T" (Some [("updated", JBool true)]) in
  let r := update sample_runtime this (item_only 0)
             (world_with [("Item", JMap [("a", JNum 1)]);
                          ("updated", JStr "1999-12-31T00:00:00.000Z")]) in
  fst r = Returned [("updated", JStr "1999-12-31T00:00:00.000Z")].
Proof.
  cbv zeta.
  destruct (update_returns_the_callers_updated sample_runtime
              (model acknowledging "T" (Some [("updated", JBool true)]))
              (item_only 0)
              (world_with [("Item", JMap [("a", JNum 1)]);
                           ("updated", JStr "1999-12-31T00:00:00.000Z")])
              eq_refl eq_refl) as (Item' & _ & _ & _ & _ & H).
  exact H.
Defined.

(* ================================================================= *)
(** ** [update] and [create], second revision *)

Lemma get_spread (a b : Obj Value) (f : string) :
  get (spread a b) f
  = match lookup b f with Some v => v | None => get a f end.
Proof.
  unfold get. rewrite lookup_spread. now destruct (lookup b f).
Qed.

(** X13. The replace-update of the second revision writes the caller's
    item merged with the key: every attribute of the key is in the record
    with the key's value, also over an attribute the item has under the
    same name, and every other attribute is the item's.  The caller's own
    map receives the [updated] stamp but not the key.  An acknowledged
    call returns the stamp alone; a rejection is mapped by [handleError]. *)
Theorem Revision2_update_writes_item_under_key
  (rt : Runtime) (this : DynamoDBAdapter)
  (key : Obj Value) (originParams : PutItemInput) (w : World) :
  let p := Revision2.update rt this key originParams in
  let A1 := replaced_item rt this originParams w in
  let params := extendParams originParams (tableName this) in
  exists Item,
    network (after p w) = (network w ++ [ReqPut params Item])%list
    /\ (forall f,
          get Item f
          = match lookup key f with Some v => v | None => get A1 f end)
    /\ heap (after p w) (put_Item originParams) = A1
    /\ outcome p w
       = match doc_put (doc this) (network w) params Item with
         | inr _ =>
             Resolved (if schema_has this "updated"
                       then [("updated", JStr (clock rt (dates w)))]
                       else [])
         | inl e => Rejected (ThrownBoom (handleError e))
         end.
Proof.
  cbv zeta. unfold after, outcome, Revision2.update, replaced_item.
  assert (forall (h : Ref -> Obj Value) r o, write h r o r = o) as Same.
  { intros h r o. unfold write. now rewrite Nat.eqb_refl. }
  exists (spread (replaced_item rt this originParams w) key).
  unfold replaced_item.
  destruct (schema_has this "updated");
    unfold bind, try_catch, ret, throw_handled, throw, new_Date_toISOString,
      heap_assign, deref, await_put_item, send, settle;
    cbn [heap dates uuids network];
    rewrite ?Same;
    (destruct (doc_put _ _ _ _) as [e|[]];
     cbn [fst snd heap network]; rewrite ?Same;
     (split; [reflexivity|]);
     (split; [intros f; apply get_spread|]);
     (split; [reflexivity|]);
     rewrite ?get_assign; reflexivity).
Qed.

(** X13, with a key that also names an attribute of the item. *)
Lemma Revision2_update_writes_item_under_key_witness :
  let this := model acknowledging "T" None in
  let p := Revision2.update sample_runtime this
             [("id", JStr "1")] (item_only 0) in
  let w := world_with [("id", JStr "9"); ("name", JStr "Bob")] in
  exists Item,
    network (after p w) = [ReqPut (extendParams (item_only 0) "T") Item]
    /\ get Item "id" = JStr "1"
    /\ get Item "name" = JStr "Bob"
    /\ heap (after p w) 0 = [("id", JStr "9"); ("name", JStr "Bob")].
Proof.
  cbv zeta.
  destruct (Revision2_update_writes_item_under_key sample_runtime
              (model acknowledging "T" None) [("id", JStr "1")] (item_only 0)
              (world_with [("id", JStr "9"); ("name", JStr "Bob")]))
    as (Item & Hnet & G & HA & _).
  exists Item. split; [exact Hnet|].
  split; [exact (G "id")|]. split; [exact (G "name") | exact HA].
Defined.

(** X14. The two revisions of [create] agree.  As long as the identifier
    in use (the caller's, or the uuid drawn) is not the empty string, the
    second [|| uuidV1()] of the second revision is never reached, and
    [create(item, itemId, options)] does what the first revision does on
    [{...options, Item: item}]: the same item, request, result and world. *)
Theorem Revision2_create_agrees
  (rt : Runtime) (this : DynamoDBAdapter)
  (item : Ref) (itemId : option string) (options : option PutItemInput)
  (w : World) :
  create_id rt itemId w <> "" ->
  Revision2.create rt this item itemId options w
  = create rt this
      (match options with
       | Some o =>
           mkPutItemInput (put_TableName o) item (put_ConditionExpression o)
             (put_ExpressionAttributeNames o) (put_ExpressionAttributeValues o)
             (put_ReturnConsumedCapacity o)
       | None => item_only item
       end)
      itemId w.
Proof.
  unfold create_id. intros H.
  unfold Revision2.create, create.
  destruct options as [o|];
    (destruct itemId as [s|];
     [destruct (negb (s =? "")) eqn:E|];
     unfold bind at 1; unfold ret at 1, uuidV1 at 1;
     unfold bind at 1;
     (destruct (schema_has this "id"); [|reflexivity]);
     unfold bind at 1; cbn [uuids];
     try rewrite E;
     try (apply String.eqb_neq in H; rewrite H; cbn [negb]);
     reflexivity).
Qed.

(** X14, with a caller's identifier and a condition among the options. *)
Lemma Revision2_create_agrees_witness :
  let this := model acknowledging "T" (Some [("id", JBool true)]) in
  let options := mkPutItemInput "" 7 (Some "attribute_not_exists(id)")
                   None None None in
  outcome (Revision2.create sample_runtime this 0 (Some "42") (Some options))
    (world_with [("name", JStr "Bob")])
  = Resolved [("id", JStr "42")].
Proof.
  cbv zeta. unfold outcome.
  rewrite (Revision2_create_agrees sample_runtime
             (model acknowledging "T" (Some [("id", JBool true)]))
             0 (Some "42")
             (Some (mkPutItemInput "" 7 (Some "attribute_not_exists(id)")
                      None None None))
             (world_with [("name", JStr "Bob")])).
  - reflexivity.
  - discriminate.
Defined.

(* ================================================================= *)
(** ** The projection builder of the JavaScript revision *)

Lemma In_assign {V} (o : Obj V) (k : string) (v : V) (p : string * V) :
  In p (assign o k v) -> p = (k, v) \/ In p o.
Proof.
  induction o as [|[k' v'] r IH]; simpl.
  - intros [<-|[]]. now left.
  - destruct (k' =? k); simpl.
    + intros [<-|H]; [now left | right; now right].
    + intros [<-|H]; [right; now left|].
      destruct (IH H) as [->|I]; [now left | right; now right].
Qed.

Lemma projection_fold_entries (ks : list string) :
  forall (st : nat * Projection) (p : string * string),
    In p (ExpressionAttributeNames (snd (fold_left projection_field ks st))) ->
    In p (ExpressionAttributeNames (snd st))
    \/ exists f, In f ks /\ p = ("#" ++ f, f).
Proof.
  induction ks as [|k r IH]; intros [n pr] p H; cbn [fold_left] in H.
  - now left.
  - apply IH in H. destruct H as [H|(f & I & ->)].
    + cbn [projection_field snd ExpressionAttributeNames] in H.
      apply In_assign in H. destruct H as [->|H]; [|now left].
      right. exists k. split; [now left | reflexivity].
    + right. exists f. split; [now right | reflexivity].
Qed.

(** X15. In the JavaScript revision [projectionExpression] always returns
    the object, never ['']: for every field string, the expression lists
    [#field] for each comma-separated field, in the order given, joined
    by [', '] with no separator in front; the name map sends each
    [#field] to its field and holds nothing else.  Fields are taken as
    they are between the commas, spaces included. *)
Theorem Legacy_projection_lists_fields_in_order (fields : option string) :
  let fs := split_comma (match fields with Some s => s | None => "" end) in
  exists pr,
    Legacy.projectionExpression fields = inr pr
    /\ ProjectionExpression pr = projection_clause fs
    /\ (forall f, In f fs ->
          lookup (ExpressionAttributeNames pr) ("#" ++ f) = Some f)
    /\ (forall p, In p (ExpressionAttributeNames pr) ->
          exists f, In f fs /\ p = ("#" ++ f, f)).
Proof.
  cbv zeta. unfold Legacy.projectionExpression, Array_isArray_array.
  cbn [negb]. eexists. split; [reflexivity|].
  set (fs := split_comma _).
  destruct (projection_fold fs [] (mkProjection "" []))
    as [He Hn]; [reflexivity | intros f [] |].
  split; [exact He|]. split; [exact Hn|].
  intros p H. unfold projection_forEach in H.
  apply projection_fold_entries in H. destruct H as [[]|H]. exact H.
Qed.

(** X15, on a field list with a space after the comma. *)
Lemma Legacy_projection_lists_fields_in_order_witness :
  exists pr,
    Legacy.projectionExpression (Some "id, name") = inr pr
    /\ ProjectionExpression pr = "#id, # name"
    /\ lookup (ExpressionAttributeNames pr) "# name" = Some " name".
Proof.
  destruct (Legacy_projection_lists_fields_in_order (Some "id, name"))
    as (pr & E & He & Hn & _).
  exists pr. split; [exact E|]. split; [exact He|].
  apply (Hn " name"). simpl. right. left. reflexivity.
Defined.

(* ================================================================= *)
(** ** The caller's value map *)

Lemma compile_from_values_other (item : Obj Value) (ks : list string) :
  forall (c : Compiler) (v0 : Obj Value),
    values_ c = Some v0 ->
    exists v',
      values_ (compile_from item c ks) = Some v'
      /\ forall ph,
           (forall j, j < length ks ->
              ph <> ":val" ++ decimal (i c + j + 1)) ->
           lookup v' ph = lookup v0 ph.
Proof.
  induction ks as [|k r IH]; intros c v0 Hv.
  - exists v0. auto.
  - destruct (compile_field_step item c k v0 Hv) as (Hi & _ & Hstep).
    unfold compile_from in *. cbn [fold_left].
    set (c1 := compile_field item c k) in *.
    assert (forall j ph,
               (forall j, j < length (k :: r) ->
                  ph <> ":val" ++ decimal (i c + j + 1)) ->
               j < length r -> ph <> ":val" ++ decimal (i c1 + j + 1)) as Sh.
    { intros j ph H Hj. rewrite Hi.
      replace (i c + 1 + j + 1) with (i c + S j + 1) by lia.
      apply H. simpl. lia. }
    destruct (strict_neq_empty (get item k)).
    + destruct Hstep as (_ & _ & _ & _ & Hv1).
      destruct (IH c1 _ Hv1) as (v' & E & P).
      exists v'. split; [assumption|].
      intros ph H. rewrite P by (intros j Hj; now apply Sh).
      apply lookup_assign_other. intros X. apply (H 0).
      * simpl. lia.
      * rewrite Nat.add_0_r. now symmetry.
    + destruct Hstep as (_ & _ & _ & _ & Hv1).
      destruct (IH c1 _ Hv1) as (v' & E & P).
      exists v'. split; [assumption|].
      intros ph H. apply P. intros j Hj. now apply Sh.
Qed.

(** X16. What the caller put in [ExpressionAttributeValues] (for a
    condition, say) goes out with the compiled values: every entry whose
    placeholder is not one of [:val1 .. :valN] is in the request's value
    map as the caller gave it.  The request has a value map when at least
    one field is set and the caller's property does not hold
    [undefined]. *)
Theorem caller_values_kept_when_a_field_is_set
  (rt : Runtime) (this : DynamoDBAdapter)
  (originParams : UpdateItemInput) (item : Ref) (w : World) :
  let A := surviving rt this originParams item w in
  let ks := Object_keys A in
  let params := update_request rt this originParams item w in
  (set_indices A 0 ks <> [] ->
   values_usable originParams = true ->
   exists values, upd_ExpressionAttributeValues params = Holds values)
  /\ forall values,
       upd_ExpressionAttributeValues params = Holds values ->
       forall ph,
         (forall m, 1 <= m <= length ks -> ph <> ":val" ++ decimal m) ->
         lookup values ph = lookup (base_values originParams) ph.
Proof.
  cbv zeta. unfold update_request.
  set (A := surviving rt this originParams item w) in *.
  unfold finish. cbn [upd_ExpressionAttributeValues].
  unfold compile. rewrite params0_values.
  set (n0 := to_option _).
  destruct (values_usable originParams).
  - set (c0 := mkCompiler 0 0 0 " " " " n0 (Some (base_values originParams))).
    destruct (compile_from_clauses A (Object_keys A) c0
                (base_values originParams) [] [])
      as (_ & Hs & _); try reflexivity.
    destruct (compile_from_values_other A (Object_keys A) c0
                (base_values originParams))
      as (values & Hv & P); try reflexivity.
    change (i c0) with 0 in Hs, P. cbn [app] in Hs. rewrite Hs, Hv.
    destruct (set_indices A 0 (Object_keys A)) as [|m l];
      cbn [length Nat.eqb written].
    + split; [contradiction | discriminate].
    + split; [intros _ _; now exists values|].
      intros values' E. injection E as <-.
      intros ph N. apply P. intros j Hj. apply N. lia.
  - destruct (compile_from_no_values A (Object_keys A)
                (mkCompiler 0 0 0 " " " " n0 None) [])
      as (Hs & _); try reflexivity.
    cbn [set] in Hs. rewrite Hs.
    split; [discriminate | discriminate].
Qed.

(** X16, with a caller's value [:old] for a condition. *)
Lemma caller_values_kept_when_a_field_is_set_witness :
  let originParams :=
    mkUpdateItemInput "" [("id", JStr "1")] Absent Absent
      (Holds [(":old", JStr "Al")]) (Some "name = :old") None in
  exists values,
    upd_ExpressionAttributeValues
      (update_request sample_runtime (model acknowledging "T" None)
         originParams 0 (world_with [("name", JStr "Bob")]))
    = Holds values
    /\ lookup values ":old" = Some (JStr "Al").
Proof.
  cbv zeta.
  destruct (caller_values_kept_when_a_field_is_set sample_runtime
              (model acknowledging "T" None)
              (mkUpdateItemInput "" [("id", JStr "1")] Absent Absent
                 (Holds [(":old", JStr "Al")]) (Some "name = :old") None)
              0 (world_with [("name", JStr "Bob")]))
    as (E & P).
  destruct E as (values & Hv); [discriminate | reflexivity |].
  exists values. split; [exact Hv|].
  rewrite (P values Hv ":old"); [reflexivity|]. intros m _. discriminate.
Defined.
